(** * go-semver-release: the version-computation engine

    A shallow embedding of [internal/semver/semver.go] and of the commit
    analyzer ([ParseReleaseRules], [fetchLatestSemverTag],
    [ComputeNewSemverNumber], [shortMessage]), followed by the properties
    the specification states about them.

    Conventions of the embedding:
    - Go's [int] is the 64-bit signed integer of the build target
      (golang:1.19, amd64).  It is a [Z] kept in range by [wrap];
    - Go strings are byte sequences: [string] (a list of 8-bit [ascii]);
      [len] is [String.length], slicing is [substring];
    - a function returning [(T, error)] returns [result T]; a run-time
      panic or a [log.Fatalf] is [Abort]. *)

From Stdlib Require Import ZArith String Ascii List Bool Lia Permutation.
Import ListNotations.

Local Open Scope string_scope.
Local Open Scope list_scope.
Local Open Scope Z_scope.

(** ** Results *)

Inductive result (A : Type) : Type :=
| Ok (a : A)
| Err (msg : string)
| Abort (msg : string).

Arguments Ok {A} a.
Arguments Err {A} msg.
Arguments Abort {A} msg.

Definition bind {A B : Type} (r : result A) (k : A -> result B) : result B :=
  match r with
  | Ok a => k a
  | Err m => Err m
  | Abort m => Abort m
  end.

(** [wrapErr prefix r] is the [fmt.Errorf("prefix: %w", err)] idiom: the outer
    message replaces the inner one, a success goes through. *)
Definition wrapErr {A : Type} (prefix : string) (r : result A) : result A :=
  match r with
  | Err _ => Err prefix
  | other => other
  end.

Notation "x <- r ;; k" := (bind r (fun x => k))
  (at level 61, r at next level, right associativity).

(** ** Go's [int] *)

Module GoInt.

Definition min_int : Z := - 2 ^ 63.
Definition max_int : Z := 2 ^ 63 - 1.

Definition in_range (z : Z) : Prop := min_int <= z <= max_int.

Definition in_rangeb (z : Z) : bool := (min_int <=? z) && (z <=? max_int).

(** Two's complement wrap-around of a mathematical result. *)
Definition wrap (z : Z) : Z := (z + 2 ^ 63) mod 2 ^ 64 - 2 ^ 63.

(** [x++] *)
Definition incr (z : Z) : Z := wrap (z + 1).

End GoInt.

(** ** The Semver value type (semver.go) *)

Record Semver : Type := mkSemver {
  Major : Z;
  Minor : Z;
  Patch : Z;
  BuildMetadata : string
}.

Definition BumpPatch (s : Semver) : Semver :=
  {| Major := Major s;
     Minor := Minor s;
     Patch := GoInt.incr (Patch s);
     BuildMetadata := BuildMetadata s |}.

Definition BumpMinor (s : Semver) : Semver :=
  {| Major := Major s;
     Minor := GoInt.incr (Minor s);
     Patch := 0;
     BuildMetadata := BuildMetadata s |}.

Definition BumpMajor (s : Semver) : Semver :=
  {| Major := GoInt.incr (Major s);
     Minor := 0;
     Patch := 0;
     BuildMetadata := BuildMetadata s |}.

Definition IsZero (s : Semver) : bool :=
  (Major s =? Minor s) && (Minor s =? Patch s) && (Patch s =? 0).

(** The [switch] of [Precedence]: the first case that holds decides. *)
Definition Precedence (s1 s2 : Semver) : Z :=
  if Major s1 >? Major s2 then 1
  else if Major s1 <? Major s2 then -1
  else if Minor s1 >? Minor s2 then 1
  else if Minor s1 <? Minor s2 then -1
  else if Patch s1 >? Patch s2 then 1
  else if Patch s1 <? Patch s2 then -1
  else 0.

(** The (major, minor, patch) triple of a version, and the lexicographic
    order on triples the specification speaks of. *)
Definition triple (s : Semver) : Z * Z * Z := (Major s, Minor s, Patch s).

Definition lex_gt (a b : Z * Z * Z) : Prop :=
  let '(a1, a2, a3) := a in
  let '(b1, b2, b3) := b in
  a1 > b1 \/ (a1 = b1 /\ (a2 > b2 \/ (a2 = b2 /\ a3 > b3))).

Definition with_metadata (s : Semver) (m : string) : Semver :=
  {| Major := Major s; Minor := Minor s; Patch := Patch s;
     BuildMetadata := m |}.

(** ** Bytes and character classes *)

Definition byte_val (c : ascii) : Z := Z.of_nat (nat_of_ascii c).

Definition in_span (lo hi : Z) (c : ascii) : bool :=
  (lo <=? byte_val c) && (byte_val c <=? hi).

(** [\d] is ASCII-only in Go's regexp: [0-9]. *)
Definition is_digit (c : ascii) : bool := in_span 48 57 c.

(** [[1-9]] *)
Definition is_digit19 (c : ascii) : bool := in_span 49 57 c.

(** [[a-zA-Z]] *)
Definition is_letter (c : ascii) : bool := in_span 97 122 c || in_span 65 90 c.

(** [\w] is ASCII-only as well: [0-9A-Za-z_]. *)
Definition is_word (c : ascii) : bool :=
  is_digit c || is_letter c || Ascii.eqb c "_".

(** [[0-9a-zA-Z-]] *)
Definition is_idchar (c : ascii) : bool :=
  is_digit c || is_letter c || Ascii.eqb c "-".

(** [[\w\-\.\\\/]], the characters of a commit scope. *)
Definition is_scope_char (c : ascii) : bool :=
  is_word c || Ascii.eqb c "-" || Ascii.eqb c "." || Ascii.eqb c "\"
  || Ascii.eqb c "/".

(** [[\w ]], the characters of a commit description. *)
Definition is_desc_char (c : ascii) : bool := is_word c || Ascii.eqb c " ".

Fixpoint all_chars (p : ascii -> bool) (s : string) : bool :=
  match s with
  | EmptyString => true
  | String c r => p c && all_chars p r
  end.

(** The longest prefix of [s] made of characters of class [p], and what
    follows it. *)
Fixpoint span (p : ascii -> bool) (s : string) : string * string :=
  match s with
  | EmptyString => (EmptyString, EmptyString)
  | String c r =>
      if p c then let '(a, b) := span p r in (String c a, b)
      else (EmptyString, s)
  end.

(** [strip_prefix p s] is what remains of [s] after the literal [p]. *)
Fixpoint strip_prefix (p s : string) : option string :=
  match p with
  | EmptyString => Some s
  | String a p' =>
      match s with
      | EmptyString => None
      | String b s' => if Ascii.eqb a b then strip_prefix p' s' else None
      end
  end.

(** The pieces of [s] between occurrences of [sep] (never the empty list). *)
Fixpoint split_on (sep : ascii) (s : string) : list string :=
  match s with
  | EmptyString => [EmptyString]
  | String c r =>
      if Ascii.eqb c sep then EmptyString :: split_on sep r
      else match split_on sep r with
           | p :: ps => String c p :: ps
           | [] => [String c EmptyString]
           end
  end.

(** [break_at sep s]: the text before the first [sep], and the text after
    it when there is one. *)
Fixpoint break_at (sep : ascii) (s : string) : string * option string :=
  match s with
  | EmptyString => (EmptyString, None)
  | String c r =>
      if Ascii.eqb c sep then (EmptyString, Some r)
      else let '(a, b) := break_at sep r in (String c a, b)
  end.

(** [strings.Contains] *)
Fixpoint Contains (s substr : string) : bool :=
  if prefix substr s then true
  else match s with
       | EmptyString => false
       | String _ r => Contains r substr
       end.

(** The last byte of a string, as a string (empty for the empty string). *)
Fixpoint last_char (s : string) : string :=
  match s with
  | EmptyString => EmptyString
  | String c EmptyString => String c EmptyString
  | String _ r => last_char r
  end.

(** ** Decimal rendering and parsing of an [int] *)

Definition digit_char (d : Z) : ascii := ascii_of_nat (Z.to_nat (48 + d)).

Definition digit_val (c : ascii) : Z := byte_val c - 48.

(** Decimal digits of a non-negative [n], most significant first, put in
    front of [acc].  An [int] has at most 19 digits; the callers give 20
    rounds. *)
Fixpoint fmt_digits (fuel : nat) (n : Z) (acc : string) : string :=
  match fuel with
  | O => acc
  | S f =>
      let acc' := String (digit_char (n mod 10)) acc in
      if n <? 10 then acc' else fmt_digits f (n / 10) acc'
  end.

(** The verb [%d] of [fmt.Sprintf] on an [int]. *)
Definition formatInt (n : Z) : string :=
  if n <? 0 then String "-" (fmt_digits 20 (- n) EmptyString)
  else fmt_digits 20 n EmptyString.

Fixpoint digits_value (s : string) (acc : Z) : option Z :=
  match s with
  | EmptyString => Some acc
  | String c r =>
      if is_digit c then digits_value r (acc * 10 + digit_val c) else None
  end.

(** [strconv.Atoi]: an optional sign, then one or more decimal digits; a
    value that does not fit an [int] is a range error. *)
Definition Atoi (s : string) : result Z :=
  match s with
  | EmptyString => Err "strconv.Atoi: invalid syntax"
  | String c r =>
      let '(neg, body) :=
        if Ascii.eqb c "-" then (true, r)
        else if Ascii.eqb c "+" then (false, r)
        else (false, s) in
      match body with
      | EmptyString => Err "strconv.Atoi: invalid syntax"
      | _ =>
          match digits_value body 0 with
          | None => Err "strconv.Atoi: invalid syntax"
          | Some n =>
              let v := if neg then - n else n in
              if GoInt.in_rangeb v then Ok v
              else Err "strconv.Atoi: value out of range"
          end
      end
  end.

(** [NormalVersion] and [String] of semver.go. *)
Definition NormalVersion (s : Semver) : string :=
  (formatInt (Major s) ++ "." ++ formatInt (Minor s) ++ "."
   ++ formatInt (Patch s))%string.

Definition String_ (s : Semver) : string :=
  if negb (String.eqb (BuildMetadata s) "") then
    (formatInt (Major s) ++ "." ++ formatInt (Minor s) ++ "."
     ++ formatInt (Patch s) ++ "+" ++ BuildMetadata s)%string
  else NormalVersion s.

(** ** Struct validation (go-playground/validator tags)

    The tags used by the program are [gte=0] on an [int], [required] and
    [oneof=...] on a string, [required] on a slice, and
    [omitempty,alphanumunicode] on a string.  The last one is the library's
    Unicode test (every rune a letter or a number); it is an interface of
    the embedding, and nothing below depends on which strings satisfy it. *)

Class Validator : Type := {
  alphanumunicode : string -> bool
}.

(** The tags of the [Semver] struct. *)
Definition validate_Semver `{Validator} (s : Semver) : bool :=
  (0 <=? Major s) && (0 <=? Minor s) && (0 <=? Patch s)
  && (if String.eqb (BuildMetadata s) "" then true
      else alphanumunicode (BuildMetadata s)).

Definition NewSemver `{Validator} (major minor patch : Z) (metadata : string)
  : result Semver :=
  let version := mkSemver major minor patch metadata in
  if validate_Semver version then Ok version
  else Err "NewSemver: failed to validate struct".

(** ** The semantic-version pattern [SemverRegex]

    [(NUM)\.(NUM)\.(NUM)(?:-(PRE))?(?:\+(BUILD))?$] where NUM is
    [0|[1-9]\d*], PRE a dot-separated list of pre-release identifiers and
    BUILD a dot-separated list of build identifiers.  The pattern has no [^]:
    Go's search takes the leftmost position where a match begins, and
    the [$] (no [m] flag) only holds at the end of the text. *)

(** The group [(NUM)] at the head of [s].  A leading [0] is the whole number:
    the second alternative does not start with [0].  After [[1-9]] the
    greedy [\d*] keeps every digit: what follows the group in the pattern
    is a literal [.], a [-], a [+] or the end of the text, so a shorter
    run, which leaves a digit next, never leads to a match. *)
Definition match_number (s : string) : option (string * string) :=
  match s with
  | EmptyString => None
  | String c r =>
      if Ascii.eqb c "0" then Some ("0", r)
      else if is_digit19 c then
        let '(ds, r') := span is_digit r in Some (String c ds, r')
      else None
  end.

(** One pre-release identifier,
    [0|[1-9]\d*|\d*[a-zA-Z-][0-9a-zA-Z-]*]: a non-empty run of
    [[0-9a-zA-Z-]] which, when it is all digits, has no leading zero. *)
Definition prerelease_ident (s : string) : bool :=
  match s with
  | EmptyString => false
  | String c r =>
      all_chars is_idchar s
      && (negb (all_chars is_digit s)
          || negb (Ascii.eqb c "0")
          || String.eqb r "")
  end.

(** One build identifier, [[0-9a-zA-Z-]+]. *)
Definition build_ident (s : string) : bool :=
  match s with
  | EmptyString => false
  | String _ _ => all_chars is_idchar s
  end.

(** [(?:-(PRE))?(?:\+(BUILD))?$] on what follows the patch number; the
    result is the text of the two groups.  No identifier contains [+],
    so a pre-release runs to the first [+] or to the end of the text, and
    a build runs to the end. *)
Definition match_tail (rest : string) : option (string * string) :=
  match rest with
  | EmptyString => Some ("", "")
  | String c r =>
      if Ascii.eqb c "-" then
        let '(pre, after) := break_at "+" r in
        if forallb prerelease_ident (split_on "." pre) then
          match after with
          | None => Some (pre, "")
          | Some b =>
              if forallb build_ident (split_on "." b) then Some (pre, b)
              else None
          end
        else None
      else if Ascii.eqb c "+" then
        if forallb build_ident (split_on "." r) then Some ("", r) else None
      else None
  end.

Definition expect (c : ascii) (s : string) : option string :=
  match s with
  | String d r => if Ascii.eqb c d then Some r else None
  | EmptyString => None
  end.

(** A match of the pattern beginning at the head of [s]: the whole match
    and the five groups. *)
Definition SemverRegex_here (s : string) : option (list string) :=
  match match_number s with
  | None => None
  | Some (major, r1) =>
  match expect "." r1 with
  | None => None
  | Some r2 =>
  match match_number r2 with
  | None => None
  | Some (minor, r3) =>
  match expect "." r3 with
  | None => None
  | Some r4 =>
  match match_number r4 with
  | None => None
  | Some (patch, r5) =>
  match match_tail r5 with
  | None => None
  | Some (pre, build) => Some [s; major; minor; patch; pre; build]
  end end end end end end.

(** [regexp.FindStringSubmatch] for [SemverRegex]: the leftmost match,
    [nil] when there is none. *)
Fixpoint SemverRegex_FindStringSubmatch (s : string) : list string :=
  match SemverRegex_here s with
  | Some m => m
  | None =>
      match s with
      | EmptyString => []
      | String _ r => SemverRegex_FindStringSubmatch r
      end
  end.

(** [regexp.MatchString] for [SemverRegex]. *)
Definition SemverRegex_MatchString (s : string) : bool :=
  match SemverRegex_FindStringSubmatch s with
  | [] => false
  | _ :: _ => true
  end.

(** ** Git objects (go-git), as far as the analyzer reads them *)

Record Tag : Type := mkTag {
  Tag_Hash : string;
  Tag_Name : string;
  Tag_When : Z
}.

Record Commit : Type := mkCommit {
  Commit_Hash : string;
  Commit_Message : string
}.

(** [NewSemverFromGitTag] of semver.go. *)
Definition NewSemverFromGitTag `{Validator} (tag : Tag) : result Semver :=
  let submatch := SemverRegex_FindStringSubmatch (Tag_Name tag) in
  if (length submatch <? 4)%nat then
    Err "NewSemverFromGitTag: tag cannot be converted to a valid semver"
  else
    major <- wrapErr "NewSemverFromGitTag: failed to convert major component"
               (Atoi (nth 1 submatch "")) ;;
    minor <- wrapErr "NewSemverFromGitTag: failed to convert minor component"
               (Atoi (nth 2 submatch "")) ;;
    patch <- wrapErr "NewSemverFromGitTag: failed to convert patch component"
               (Atoi (nth 3 submatch "")) ;;
    wrapErr "NewSemverFromGitTag: failed to build SemVer"
      (NewSemver major minor patch "").

(** ** Release rules (commit analyzer) *)

Record ReleaseRule : Type := mkReleaseRule {
  CommitType : string;
  ReleaseType : string
}.

(** A Go slice is [nil] or a sequence: [None] is the [nil] slice. *)
Record ReleaseRules : Type := mkReleaseRules {
  Rules : option (list ReleaseRule)
}.

Definition slice_elems {A : Type} (s : option (list A)) : list A :=
  match s with
  | None => []
  | Some l => l
  end.

(** The eleven commit types, in the order of the [oneof] tag and of the
    alternation of [conventionalCommitRegex]. *)
Definition commitTypes : list string :=
  ["build"; "chore"; "ci"; "docs"; "feat"; "fix"; "perf"; "refactor";
   "revert"; "style"; "test"].

Definition releaseTypes : list string := ["major"; "minor"; "patch"].

(** The tag [required] on a string: not the zero value. *)
Definition required_string (v : string) : bool := negb (String.eqb v "").

(** The tag [oneof=a b c] on a string. *)
Definition oneof (vals : list string) (v : string) : bool :=
  existsb (String.eqb v) vals.

(** The tag [required] on a slice: not [nil].  An empty slice that is not
    [nil] (the decoding of a JSON [[]]) has a value. *)
Definition required_slice {A : Type} (v : option (list A)) : bool :=
  match v with
  | None => false
  | Some _ => true
  end.

(** [validate.Struct] on a [ReleaseRule]. *)
Definition validate_ReleaseRule (rule : ReleaseRule) : bool :=
  (required_string (CommitType rule) && oneof commitTypes (CommitType rule))
  && (required_string (ReleaseType rule)
      && oneof releaseTypes (ReleaseType rule)).

(** [validate.Struct] on a [*ReleaseRules]: a [nil] pointer is refused,
    and the one tagged field is [Rules] (there is no [dive]: the elements
    are not looked at here). *)
Definition validate_ReleaseRules (releaseRules : option ReleaseRules) : bool :=
  match releaseRules with
  | None => false
  | Some rr => required_slice (Rules rr)
  end.

(** [ParseReleaseRules], from the point where [decoder.Decode] has filled
    (or left [nil]) the variable [releaseRules]; the decoder's own error is
    dropped by the program. *)
Definition ParseReleaseRules (releaseRules : option ReleaseRules)
  : result ReleaseRules :=
  if negb (validate_ReleaseRules releaseRules) then
    Err "ParseReleaseRules: failed to validate release rules"
  else
    match releaseRules with
    | None => Abort "nil pointer dereference"
    | Some rr =>
        if forallb validate_ReleaseRule (slice_elems (Rules rr)) then Ok rr
        else Err "ParseReleaseRules: failed to validate release rules"
    end.

Record CommitAnalyzer : Type := mkCommitAnalyzer {
  releaseRules : ReleaseRules
}.

Definition NewCommitAnalyzer (decoded : option ReleaseRules)
  : result CommitAnalyzer :=
  rr <- wrapErr "NewCommitAnalyzer: failed parsing release rules"
          (ParseReleaseRules decoded) ;;
  Ok (mkCommitAnalyzer rr).

(** ** The pattern [conventionalCommitRegex]

    [^(TYPE){1}(\(SCOPE+\))?(!)?: ([\w ])+(REST)] with TYPE the
    alternation of the eleven commit types, SCOPE the class
    [[\w\-\.\\\/]] and REST any run of characters, [[\s\S]*]. *)

(** The first alternative that is a prefix of [s].  No commit type is a
    prefix of another one, so at most one alternative applies. *)
Fixpoint match_alternatives (alts : list string) (s : string)
  : option (string * string) :=
  match alts with
  | [] => None
  | a :: more =>
      match strip_prefix a s with
      | Some r => Some (a, r)
      | None => match_alternatives more s
      end
  end.

(** The optional group [(\(SCOPE+\))?].  When the text goes on with an
    opening parenthesis the group has to match: skipping it leaves the
    parenthesis in front of [(!)?: ], which cannot take it. *)
Definition match_scope (s : string) : option (string * string) :=
  match s with
  | String "(" r =>
      let '(sc, r') := span is_scope_char r in
      match sc, r' with
      | String _ _, String ")" r'' => Some (("(" ++ sc ++ ")")%string, r'')
      | _, _ => None
      end
  | _ => Some ("", s)
  end.

(** The optional group [(!)?]; an exclamation mark that is there is
    taken, since the literal [: ] that follows cannot take it. *)
Definition match_bang (s : string) : string * string :=
  match s with
  | String "!" r => ("!", r)
  | _ => ("", s)
  end.

(** [regexp.FindStringSubmatch] for [conventionalCommitRegex]: [nil], or
    the whole match and the five groups.  The pattern is anchored at the
    start of the text and ends with the greedy [[\s\S]*], so the whole
    match is the whole message. *)
Definition conventionalCommitRegex_FindStringSubmatch (message : string)
  : list string :=
  match match_alternatives commitTypes message with
  | None => []
  | Some (ty, r1) =>
  match match_scope r1 with
  | None => []
  | Some (scope, r2) =>
  let '(bang, r3) := match_bang r2 in
  match strip_prefix ": " r3 with
  | None => []
  | Some r4 =>
  let '(descr, body) := span is_desc_char r4 in
  match descr with
  | EmptyString => []
  | String _ _ => [message; ty; scope; bang; last_char descr; body]
  end end end end.

Definition conventionalCommitRegex_MatchString (message : string) : bool :=
  match conventionalCommitRegex_FindStringSubmatch message with
  | [] => false
  | _ :: _ => true
  end.

(** [shortMessage]: [message[0:57]] followed by three dots, or
    [message[0 : len(message)-1]], which panics on the empty string. *)
Definition shortMessage (message : string) : result string :=
  if (60 <? String.length message)%nat then
    Ok (substring 0 57 message ++ "...")%string
  else if (String.length message =? 0)%nat then
    Abort "slice bounds out of range [:-1]"
  else Ok (substring 0 (String.length message - 1) message).

(** ** The repository, as the analyzer sees it

    [TagObjects] lists the annotated tags in the iteration order of the
    store, [Head] is the hash HEAD points to, and [Log since] is the commit
    log from HEAD, newest first, restricted to the commits after [since]
    when one is given. *)

Record Repository : Type := mkRepository {
  TagObjects : result (list Tag);
  Head : result string;
  Log : option Z -> result (list Commit)
}.

(** Modelled from the spec: [tagger.NewTag], of the package
    internal/tagger, which is not among the sources.  The specification
    has the resolver "synthesize a virtual tag at version 0.0.0 anchored to
    the current head commit": the tag is named by the version and carries
    the hash it is given.  Its timestamp is never read, the version being
    zero. *)
Definition NewTag (version : Semver) (hash : string) : Tag :=
  {| Tag_Hash := hash; Tag_Name := String_ version; Tag_When := 0 |}.

(** What a run has computed so far, and the lines it has logged (without
    the logger's prefix and timestamp). *)
Record Run : Type := mkRun {
  semver : Semver;
  newRelease : bool;
  logged : list string
}.

Definition dquote : string := String (ascii_of_nat 34) EmptyString.

Definition Printf (line : string) (st : Run) : Run :=
  {| semver := semver st; newRelease := newRelease st;
     logged := logged st ++ [line] |}.

Definition bump (f : Semver -> Semver) (st : Run) : Run :=
  {| semver := f (semver st); newRelease := true; logged := logged st |}.

(** The loop over the semver tags of [fetchLatestSemverTag]; [i] is the
    index of the head of [tags] and [latestSemverTag] the pointer, [nil]
    before the first round. *)
Fixpoint latestLoop `{Validator} (i : nat) (tags : list Tag)
  (latestSemverTag : option Tag) : result (option Tag) :=
  match tags with
  | [] => Ok latestSemverTag
  | tag :: rest =>
      current <- wrapErr "FetchLatestSemverTag: failed to build semver from tag"
                   (NewSemverFromGitTag tag) ;;
      if (i =? 0)%nat then latestLoop (S i) rest (Some tag)
      else
        match latestSemverTag with
        | None => Abort "nil pointer dereference"
        | Some latest =>
            old <- wrapErr
                     "FetchLatestSemverTag: failed to build semver from tag"
                     (NewSemverFromGitTag latest) ;;
            if Precedence current old =? 1
            then latestLoop (S i) rest (Some tag)
            else latestLoop (S i) rest (Some latest)
        end
  end.

(** [fetchLatestSemverTag]: the tag, and the lines logged. *)
Definition fetchLatestSemverTag `{Validator} (r : Repository)
  : result (Tag * list string) :=
  tags <- TagObjects r ;;
  let semverTags :=
    filter (fun tag => SemverRegex_MatchString (Tag_Name tag)) tags in
  match semverTags with
  | [] =>
      head <- wrapErr "FetchLatestSemverTag: failed to fetch head" (Head r) ;;
      version <- wrapErr "FetchLatestSemverTag: failed to build new semver"
                   (NewSemver 0 0 0 "") ;;
      Ok (NewTag version head, ["no previous tag, creating one"])
  | [only] => Ok (only, [])
  | _ :: _ :: _ =>
      latestSemverTag <- latestLoop 0 semverTags None ;;
      match latestSemverTag with
      | None => Abort "nil pointer dereference"
      | Some latest =>
          Ok (latest, [("latest semver tag: " ++ Tag_Name latest)%string])
      end
  end.

(** The [switch] on [rule.ReleaseType], with the line logged after it. *)
Definition applyRule (shortHash shortMsg : string) (rule : ReleaseRule)
  (st : Run) : Run :=
  let line (kind : string) :=
    ("(" ++ shortHash ++ ") " ++ kind ++ ": " ++ dquote ++ shortMsg
     ++ dquote)%string in
  let st' :=
    if String.eqb (ReleaseType rule) "patch" then
      bump BumpPatch (Printf (line "patch") st)
    else if String.eqb (ReleaseType rule) "minor" then
      bump BumpMinor (Printf (line "minor") st)
    else if String.eqb (ReleaseType rule) "major" then
      bump BumpMajor (Printf (line "major") st)
    else Printf "no release to apply" st in
  Printf ("version is now " ++ String_ (semver st'))%string st'.

(** The loop over the release rules, for one commit. *)
Fixpoint rulesLoop (commitType shortHash shortMsg : string)
  (rules : list ReleaseRule) (st : Run) : Run :=
  match rules with
  | [] => st
  | rule :: rest =>
      if negb (String.eqb commitType (CommitType rule)) then
        rulesLoop commitType shortHash shortMsg rest st
      else
        rulesLoop commitType shortHash shortMsg rest
          (applyRule shortHash shortMsg rule st)
  end.

(** [breakingChange] of a matched message. *)
Definition breakingChange (submatch : list string) : bool :=
  Contains (nth 3 submatch "") "!"
  || Contains (nth 0 submatch "") "BREAKING CHANGE".

(** The loop over the history (oldest first) of [ComputeNewSemverNumber].
    A commit hash prints as 40 hexadecimal digits, of which the first
    seven are kept. *)
Fixpoint historyLoop (rules : list ReleaseRule) (history : list Commit)
  (st : Run) : result Run :=
  match history with
  | [] => Ok st
  | commit :: rest =>
      if negb (conventionalCommitRegex_MatchString (Commit_Message commit))
      then historyLoop rules rest st
      else
        let submatch :=
          conventionalCommitRegex_FindStringSubmatch (Commit_Message commit) in
        let commitType := nth 1 submatch "" in
        let shortHash := substring 0 7 (Commit_Hash commit) in
        shortMsg <- shortMessage (Commit_Message commit) ;;
        if breakingChange submatch then
          Ok (bump BumpMajor
                (Printf ("(" ++ shortHash ++ ") breaking change")%string st))
        else
          historyLoop rules rest
            (rulesLoop commitType shortHash shortMsg rules st)
  end.

(** [ComputeNewSemverNumber].  A failure of [r.Log] ends the process
    ([log.Fatalf]). *)
Definition ComputeNewSemverNumber `{Validator} (c : CommitAnalyzer)
  (r : Repository) : result Run :=
  found <- wrapErr "failed to fetch latest semver" (fetchLatestSemverTag r) ;;
  let '(latestSemverTag, lines) := found in
  version <- wrapErr "failed to build semver from git tag"
               (NewSemverFromGitTag latestSemverTag) ;;
  let since :=
    if negb (IsZero version) then Some (Tag_When latestSemverTag) else None in
  match Log r since with
  | Ok commitHistory =>
      historyLoop (slice_elems (Rules (releaseRules c))) (rev commitHistory)
        (mkRun version false lines)
  | Err _ => Abort "failed to fetch commit history"
  | Abort m => Abort m
  end.

(** The variant of the history loop the specification's rationale compares
    with: a breaking commit bumps the major component and the loop goes
    on with the commits that follow. *)
Fixpoint historyLoop_continue (rules : list ReleaseRule)
  (history : list Commit) (st : Run) : result Run :=
  match history with
  | [] => Ok st
  | commit :: rest =>
      if negb (conventionalCommitRegex_MatchString (Commit_Message commit))
      then historyLoop_continue rules rest st
      else
        let submatch :=
          conventionalCommitRegex_FindStringSubmatch (Commit_Message commit) in
        let commitType := nth 1 submatch "" in
        let shortHash := substring 0 7 (Commit_Hash commit) in
        shortMsg <- shortMessage (Commit_Message commit) ;;
        if breakingChange submatch then
          historyLoop_continue rules rest
            (bump BumpMajor
               (Printf ("(" ++ shortHash ++ ") breaking change")%string st))
        else
          historyLoop_continue rules rest
            (rulesLoop commitType shortHash shortMsg rules st)
  end.

(** ** Vocabulary of the properties *)

(** A rule is outside the vocabularies when its commit type is not one of
    the eleven types or its severity is not one of the three. *)
Definition rule_outside (rule : ReleaseRule) : Prop :=
  ~ In (CommitType rule) commitTypes \/ ~ In (ReleaseType rule) releaseTypes.

(** A commit is classified as breaking when its message is of the grammar
    and [breakingChange] holds of its submatches. *)
Definition breaking_commit (c : Commit) : bool :=
  conventionalCommitRegex_MatchString (Commit_Message c)
  && breakingChange
       (conventionalCommitRegex_FindStringSubmatch (Commit_Message c)).

(** The type a classified commit is given: the first group. *)
Definition commit_type (c : Commit) : string :=
  nth 1 (conventionalCommitRegex_FindStringSubmatch (Commit_Message c)) "".

Definition breaking_line (c : Commit) : string :=
  ("(" ++ substring 0 7 (Commit_Hash c) ++ ") breaking change")%string.

(** The bump a severity stands for; any other word stands for none. *)
Definition bump_of (severity : string) (v : Semver) : Semver :=
  if String.eqb severity "patch" then BumpPatch v
  else if String.eqb severity "minor" then BumpMinor v
  else if String.eqb severity "major" then BumpMajor v
  else v.

(** The rules whose commit type is [ty], in the order of the rule list. *)
Definition matching_rules (ty : string) (rules : list ReleaseRule)
  : list ReleaseRule :=
  filter (fun rule => String.eqb ty (CommitType rule)) rules.

(** Commits, rules and versions of the specification's examples. *)
Definition sample_hash : string := "0123456789abcdef0123456789abcdef01234567".

Definition commit_of (message : string) : Commit :=
  mkCommit sample_hash message.

Definition rules_feat_fix : list ReleaseRule :=
  [mkReleaseRule "feat" "minor"; mkReleaseRule "fix" "patch"].

Definition rules_feat_twice : list ReleaseRule :=
  [mkReleaseRule "feat" "minor"; mkReleaseRule "feat" "patch"].

Definition version_1_0_0 : Semver := mkSemver 1 0 0 "".

(** The commits that follow the first breaking commit of a history (none
    when no commit is breaking): those the loop does not look at. *)
Fixpoint after_breaking (history : list Commit) : list Commit :=
  match history with
  | [] => []
  | c :: rest => if breaking_commit c then rest else after_breaking rest
  end.

(** A commit that changes nothing when it is processed: it is not of the
    grammar, or it is not breaking and no rule has its type. *)
Definition inert (rules : list ReleaseRule) (c : Commit) : bool :=
  negb (conventionalCommitRegex_MatchString (Commit_Message c))
  || (negb (breaking_commit c)
      && Nat.eqb (List.length (matching_rules (commit_type c) rules)) 0).

(** [room k v]: the components of [v] are non-negative and each can be
    incremented [k] times without leaving the range of [int]. *)
Definition room (k : Z) (v : Semver) : Prop :=
  0 <= Major v <= GoInt.max_int - k
  /\ 0 <= Minor v <= GoInt.max_int - k
  /\ 0 <= Patch v <= GoInt.max_int - k.

(** What the loop maintains with respect to the version it started from:
    the flag is down and the triple unchanged, or the flag is up and the
    triple greater. *)
Definition tracks (start : Semver) (st : Run) : Prop :=
  (newRelease st = false /\ triple (semver st) = triple start)
  \/ (newRelease st = true /\ lex_gt (triple (semver st)) (triple start)).

(** [decimal ds n]: [ds] is the decimal numeral of [n >= 0], without
    leading zero. *)
Definition decimal (ds : string) (n : Z) : Prop :=
  all_chars is_digit ds = true
  /\ (forall (a : Z) (rest : string),
        digits_value (ds ++ rest) a
        = digits_value rest (a * 10 ^ Z.of_nat (String.length ds) + n))
  /\ ((n = 0 /\ ds = "0")
      \/ (0 < n /\ exists (c : ascii) (r : string),
                     ds = String c r /\ is_digit19 c = true)).

(** The text is over, or goes on with something that is not a digit. *)
Definition starts_nondigit (rest : string) : bool :=
  match rest with
  | EmptyString => true
  | String c _ => negb (is_digit c)
  end.

Definition no_digit (s : string) : bool :=
  all_chars (fun c => negb (is_digit c)) s.

(** One pairwise comparison: the candidate replaces the retained tag only
    when its precedence is strictly greater. *)
Definition keep_greater (ver : Tag -> Semver) (best candidate : Tag) : Tag :=
  if Precedence (ver candidate) (ver best) =? 1 then candidate else best.

Definition latest_line (latest : Tag) : list string :=
  [("latest semver tag: " ++ Tag_Name latest)%string].

Definition tag_error : string :=
  "FetchLatestSemverTag: failed to build semver from tag".

(** The three tags of the specification's example, and the six orders in
    which the store may list them. *)
Definition tag_v1_0_0 : Tag := mkTag "aaaaaaa" "v1.0.0" 100.
Definition tag_v1_2_0 : Tag := mkTag "bbbbbbb" "v1.2.0" 200.
Definition tag_v2_0_0 : Tag := mkTag "ccccccc" "v2.0.0" 300.

Definition example_orders : list (list Tag) :=
  [[tag_v1_0_0; tag_v1_2_0; tag_v2_0_0];
   [tag_v1_0_0; tag_v2_0_0; tag_v1_2_0];
   [tag_v1_2_0; tag_v1_0_0; tag_v2_0_0];
   [tag_v1_2_0; tag_v2_0_0; tag_v1_0_0];
   [tag_v2_0_0; tag_v1_0_0; tag_v1_2_0];
   [tag_v2_0_0; tag_v1_2_0; tag_v1_0_0]].

Definition repository_of (tags : list Tag) : Repository :=
  mkRepository (Ok tags) (Ok sample_hash) (fun _ => Ok []).

(** The repository of the specification's first example: one tag v1.0.0,
    and, after it, the commits "fix: a" then "feat: b" (the log lists the
    newest first). *)
Definition example_repository : Repository :=
  mkRepository (Ok [tag_v1_0_0]) (Ok sample_hash)
    (fun since =>
       match since with
       | Some _ => Ok [commit_of "feat: b"; commit_of "fix: a"]
       | None => Err "unexpected"
       end).

Definition example_analyzer : CommitAnalyzer :=
  mkCommitAnalyzer (mkReleaseRules (Some rules_feat_fix)).

(** The text of the optional groups of a commit message. *)
Definition scope_text (scope : option string) : string :=
  match scope with
  | None => ""
  | Some sc => ("(" ++ sc ++ ")")%string
  end.

Definition bang_text (bang : bool) : string := if bang then "!" else "".

(** A scope is well formed when it is a non-empty run of scope characters. *)
Definition scope_ok (scope : option string) : bool :=
  match scope with
  | None => true
  | Some sc => negb (String.eqb sc "") && all_chars is_scope_char sc
  end.

(** A second tag for the version 1.2.0, and the versions of the example
    tags. *)
Definition tag_release_1_2_0 : Tag := mkTag "eeeeeee" "release-1.2.0" 250.

Definition example_version (t : Tag) : Semver :=
  if String.eqb (Tag_Name t) "v1.0.0" then mkSemver 1 0 0 ""
  else if String.eqb (Tag_Name t) "v2.0.0" then mkSemver 2 0 0 ""
  else mkSemver 1 2 0 "".

(** [extends st st']: what relates a state of the history loop to a later
    one.  The build metadata is kept, the flag is never lowered, the version
    is untouched as long as the flag is down, and lines are only added to
    the log. *)
Definition extends (st st' : Run) : Prop :=
  BuildMetadata (semver st') = BuildMetadata (semver st)
  /\ (newRelease st = true -> newRelease st' = true)
  /\ (newRelease st' = false -> semver st' = semver st)
  /\ exists more : list string, logged st' = logged st ++ more.

(** A tag that passes the filter and whose major number does not fit an
    [int], and a tag that does not pass the filter. *)
Definition tag_too_big : Tag := mkTag "fffffff" "v9223372036854775808.0.0" 10.

Definition tag_nightly : Tag := mkTag "ddddddd" "nightly" 50.

(** Two repositories with the one tag v0.0.0 (a real tag, with a
    timestamp) and the same whole log, newest commit first; they differ in
    what they answer when the log is asked since a time. *)
Definition tag_v0_0_0 : Tag := mkTag "0000000" "v0.0.0" 100.

Definition zero_tag_repository (bounded : result (list Commit)) : Repository :=
  mkRepository (Ok [tag_v0_0_0]) (Ok sample_hash)
    (fun since =>
       match since with
       | None => Ok [commit_of "feat: second"; commit_of "fix: first"]
       | Some _ => bounded
       end).

(** Characters, as the specification counts them.  The program counts
    and cuts bytes; in UTF-8 text a character is a byte that is not a
    continuation byte (10xxxxxx) together with the continuation bytes that
    follow it, and an ASCII character is one byte. *)
Definition is_ascii (c : ascii) : bool := in_span 0 127 c.

Definition is_continuation (c : ascii) : bool := in_span 128 191 c.

Fixpoint character_count (s : string) : nat :=
  match s with
  | EmptyString => O
  | String c r =>
      if is_continuation c then character_count r else S (character_count r)
  end.

(** The first [n] characters of [s]. *)
Fixpoint take_characters (n : nat) (s : string) : string :=
  match s with
  | EmptyString => EmptyString
  | String c r =>
      if is_continuation c then String c (take_characters n r)
      else match n with
           | O => EmptyString
           | S n' => String c (take_characters n' r)
           end
  end.

Definition drop_last_character (s : string) : string :=
  take_characters (character_count s - 1) s.

(** The summary as the specification words it: the first 57 characters
    and three dots when the message is longer than 60 characters, the
    message without its final character otherwise. *)
Definition summary_in_characters (message : string) : string :=
  if (60 <? character_count message)%nat then
    (take_characters 57 message ++ "...")%string
  else drop_last_character message.

(** The letter e with an acute accent, two bytes in UTF-8 (195, 169), and
    a message of the grammar made of six ASCII characters and 28 such
    letters: 34 characters, 62 bytes. *)
Definition e_acute : string :=
  String (ascii_of_nat 195) (String (ascii_of_nat 169) EmptyString).

Fixpoint repeat_string (n : nat) (s : string) : string :=
  match n with
  | O => EmptyString
  | S n' => (s ++ repeat_string n' s)%string
  end.

Definition accented_message : string :=
  ("fix: a" ++ repeat_string 28 e_acute)%string.

Definition long_message : string :=
  "feat(parser): accept a trailing comma in every list of the settings file".

(** Two repositories with the one tag v1.2.0 and the same log since the
    tag's time; they differ in what they answer for the whole log. *)
Definition tagged_repository (unbounded : result (list Commit)) : Repository :=
  mkRepository (Ok [tag_v1_2_0]) (Ok sample_hash)
    (fun since =>
       match since with
       | None => unbounded
       | Some _ => Ok [commit_of "fix: later"]
       end).

(** ** The two patterns, run by a backtracking matcher

    The matchers above are written pattern by pattern.  As a check, the two
    patterns are given here as regular expressions and run by a small
    leftmost-first backtracking matcher with capture groups (the order of
    preference of Go's regexp); the two agree on the texts listed. *)

Module Backtracking.

Inductive regex : Type :=
| Eps
| Chr (p : ascii -> bool)
| Seq (a b : regex)
| Alt (a b : regex)
| Star (a : regex)
| Group (n : nat) (a : regex)
| EndOfText.

Definition captures : Type := list (nat * string).

(** [run fuel r s c k]: match [r] at the head of [s], then go on with
    [k] on what is left; alternatives are tried in order, a star takes as
    many rounds as it can before it gives one back. *)
Fixpoint run (fuel : nat) (r : regex) (s : string) (c : captures)
  (k : string -> captures -> option captures) : option captures :=
  match fuel with
  | O => None
  | S f =>
      match r with
      | Eps => k s c
      | Chr p =>
          match s with
          | String a s' => if p a then k s' c else None
          | EmptyString => None
          end
      | Seq a b => run f a s c (fun s' c' => run f b s' c' k)
      | Alt a b =>
          match run f a s c k with
          | Some x => Some x
          | None => run f b s c k
          end
      | Star a =>
          match run f a s c
                  (fun s' c' =>
                     if (String.length s' <? String.length s)%nat
                     then run f (Star a) s' c' k else None) with
          | Some x => Some x
          | None => k s c
          end
      | Group n a =>
          run f a s c
            (fun s' c' =>
               k s' ((n, substring 0 (String.length s - String.length s') s)
                     :: c'))
      | EndOfText =>
          match s with
          | EmptyString => k s c
          | String _ _ => None
          end
      end
  end.

Definition lit (ch : ascii) : regex := Chr (Ascii.eqb ch).

Fixpoint lits (s : string) : regex :=
  match s with
  | EmptyString => Eps
  | String a r => Seq (lit a) (lits r)
  end.

Definition opt (a : regex) : regex := Alt a Eps.

Definition plus (a : regex) : regex := Seq a (Star a).

Fixpoint alts (l : list regex) : regex :=
  match l with
  | [] => Chr (fun _ => false)
  | [a] => a
  | a :: more => Alt a (alts more)
  end.

Fixpoint group_text (n : nat) (c : captures) : string :=
  match c with
  | [] => ""
  | (i, s) :: more => if Nat.eqb i n then s else group_text n more
  end.

Definition match_here (r : regex) (groups : nat) (s : string)
  : option (list string) :=
  match run 4000 r s []
          (fun s' c =>
             Some ((0%nat, substring 0 (String.length s - String.length s') s)
                   :: c)) with
  | Some c => Some (map (fun i => group_text i c) (seq 0 (S groups)))
  | None => None
  end.

Fixpoint find (r : regex) (groups : nat) (s : string) : list string :=
  match match_here r groups s with
  | Some m => m
  | None =>
      match s with
      | EmptyString => []
      | String _ t => find r groups t
      end
  end.

Definition number : regex :=
  Alt (lit "0") (Seq (Chr is_digit19) (Star (Chr is_digit))).

Definition prerelease_identifier : regex :=
  alts [lit "0";
        Seq (Chr is_digit19) (Star (Chr is_digit));
        Seq (Star (Chr is_digit))
          (Seq (Chr (fun c => is_letter c || Ascii.eqb c "-"))
             (Star (Chr is_idchar)))].

Definition SemverRegex : regex :=
  Seq (Group 1 number) (Seq (lit ".")
  (Seq (Group 2 number) (Seq (lit ".")
  (Seq (Group 3 number)
  (Seq (opt (Seq (lit "-")
               (Group 4 (Seq prerelease_identifier
                           (Star (Seq (lit ".") prerelease_identifier))))))
  (Seq (opt (Seq (lit "+")
               (Group 5 (Seq (plus (Chr is_idchar))
                           (Star (Seq (lit ".") (plus (Chr is_idchar))))))))
     EndOfText)))))).

Definition conventionalCommitRegex : regex :=
  Seq (Group 1 (alts (map lits commitTypes)))
  (Seq (opt (Group 2 (Seq (lit "(")
                        (Seq (plus (Chr is_scope_char)) (lit ")")))))
  (Seq (opt (Group 3 (lit "!")))
  (Seq (lits ": ")
  (Seq (plus (Group 4 (Chr is_desc_char)))
     (Group 5 (Star (Chr (fun _ => true)))))))).

Definition agree (f g : string -> list string) (texts : list string) : bool :=
  forallb (fun s => if list_eq_dec string_dec (f s) (g s) then true else false)
    texts.

Definition tag_names : list string :=
  ["v1.2.3"; "1.2.3"; "v1.2.3-rc.1+build.5"; "12.3.4"; "01.2.3";
   "1.2.3.4.5"; "1.2.03"; "1.0.0-2.0.0"; "1.0.0-01"; "1.0.0+"; "1.0.0-";
   "1.0.0-a..b"; "1.0.0-a.b+c.d"; "1.0.0+a+b"; "1.0.0-0"; "1.0.0-00";
   "1.0.0-0a"; "1.0.0-a.01"; "1.0.0-a.0"; "1.0.0--"; "1.0.0-1.0.0-x";
   "x1.0.0-1.0.0+1.0.0"; "1.0.0+1.0.0-1.0.0"; "1.0.0+01"; ""; "1.2";
   "1.2."; "a.b.c"; "0.0.0"; "00.0.0"; "0.00.0"; "0.0.00"; "10.20.30";
   "1.2.3 "; " 1.2.3"; "1.2.3-rc 1"; "v1.2.3-rc.1+"; "1.2.3-+b";
   "1.2.3-a+"; "1.2.3+b."; "1.2.3+.b"; "1.2.3-.a"; "1.2.3-a.";
   "9.9.9-9.9.9"; "1.1.1.1"; "1.2.3-1.2.3.04"; "1-2.3.4"; "1.2-3.4.5";
   "release-2024.1.2.3"; "1.2.3-09a"; "1.2.3-090"; "1.2.3-0.9";
   "1.2.3-a-b"; "1.2.3+-"; "1.2.3-+"; "1.2.3+a-b.c-d";
   "v99999999999999999999.0.0"].

Definition messages : list string :=
  ["feat: x"; "feat!: breaking change"; "fix(api/v1.x): c d"; "fix(): c";
   "fix:c"; "fix: -c"; "ci: x"; "feature: x"; "chore(a)(b): x";
   "feat(a)!: x"; "feat!(a): x"; "feat!!: x"; "feat : x"; "feat:  x";
   "feat: "; "cifeat: x"; "build: ab cd!ef"; "test(a b): x";
   "test(a\b-c.d_e): x y"; " feat: x"; "Feat: x"; "docs: _"; "revert: 9";
   "perf(/): a"; "perf(: a"; "perf(a: b): c"; "fix(a)): c"; ""; "fix";
   "fix:"; "fix: a BREAKING CHANGE"; "chore!: "; "style: a, b"].

End Backtracking.

(** * Properties *)

(** ** Go's [int] *)

Lemma wrap_id (z : Z) : GoInt.in_range z -> GoInt.wrap z = z.
Proof.
  unfold GoInt.in_range, GoInt.wrap, GoInt.min_int, GoInt.max_int. intros Hz.
  rewrite Z.mod_small; lia.
Qed.

Lemma wrap_in_range (z : Z) : GoInt.in_range (GoInt.wrap z).
Proof.
  unfold GoInt.in_range, GoInt.wrap, GoInt.min_int, GoInt.max_int.
  pose proof (Z.mod_pos_bound (z + 2 ^ 63) (2 ^ 64) ltac:(lia)). lia.
Qed.

Lemma incr_small (z : Z) :
  GoInt.min_int <= z < GoInt.max_int -> GoInt.incr z = z + 1.
Proof.
  intros Hz. unfold GoInt.incr. apply wrap_id. unfold GoInt.in_range. lia.
Qed.

Lemma incr_max : GoInt.incr GoInt.max_int = GoInt.min_int.
Proof. reflexivity. Qed.

Lemma in_rangeb_spec (z : Z) : GoInt.in_rangeb z = true <-> GoInt.in_range z.
Proof.
  unfold GoInt.in_rangeb, GoInt.in_range.
  rewrite andb_true_iff, !Z.leb_le. tauto.
Qed.

(** ** Precedence *)

(** [Precedence] decided by the integer comparisons it is made of. *)
Ltac precedence_cases :=
  unfold Precedence, triple, lex_gt in *; simpl in *;
  repeat match goal with
         | |- context [?x >? ?y] => destruct (Z.gtb_spec x y)
         | |- context [?x <? ?y] => destruct (Z.ltb_spec x y)
         | H : context [?x >? ?y] |- _ => destruct (Z.gtb_spec x y)
         | H : context [?x <? ?y] |- _ => destruct (Z.ltb_spec x y)
         end.

Lemma Precedence_gt (a b : Semver) :
  Precedence a b = 1 <-> lex_gt (triple a) (triple b).
Proof. precedence_cases; split; intros; try lia; try discriminate. Qed.

Lemma Precedence_lt (a b : Semver) :
  Precedence a b = -1 <-> lex_gt (triple b) (triple a).
Proof. precedence_cases; split; intros; try lia; try discriminate. Qed.

Lemma Precedence_eq (a b : Semver) :
  Precedence a b = 0 <-> triple a = triple b.
Proof.
  precedence_cases; split; intros E; try discriminate;
    try (injection E; intros; lia).
  f_equal; [f_equal|]; lia.
Qed.

Lemma Precedence_values (a b : Semver) :
  Precedence a b = 1 \/ Precedence a b = -1 \/ Precedence a b = 0.
Proof. precedence_cases; auto. Qed.

Lemma Precedence_flip (a b : Semver) : Precedence b a = - Precedence a b.
Proof. precedence_cases; lia. Qed.

Lemma lex_gt_trans (a b c : Z * Z * Z) : lex_gt a b -> lex_gt b c -> lex_gt a c.
Proof.
  destruct a as [[a1 a2] a3], b as [[b1 b2] b3], c as [[c1 c2] c3].
  unfold lex_gt. lia.
Qed.

Lemma lex_gt_irrefl (a : Z * Z * Z) : ~ lex_gt a a.
Proof. destruct a as [[a1 a2] a3]. unfold lex_gt. lia. Qed.

(** C5. [Precedence] is a strict total order on (major, minor, patch)
    triples: it returns 1, -1 or 0; 1 exactly when the first triple is
    lexicographically greater (major, then minor, then patch), -1 exactly
    when it is smaller, 0 exactly when the triples are equal, so exactly one
    of the three holds; "greater" and "less" are transitive and swap with the
    arguments; build metadata never takes part. *)
Theorem Precedence_strict_total_order :
  forall a b c : Semver,
    (Precedence a b = 1 \/ Precedence a b = -1 \/ Precedence a b = 0)
    /\ (Precedence a b = 1 <-> lex_gt (triple a) (triple b))
    /\ (Precedence a b = -1 <-> lex_gt (triple b) (triple a))
    /\ (Precedence a b = 0 <-> triple a = triple b)
    /\ ~ (lex_gt (triple a) (triple b) /\ lex_gt (triple b) (triple a))
    /\ ~ (lex_gt (triple a) (triple b) /\ triple a = triple b)
    /\ ~ (lex_gt (triple b) (triple a) /\ triple a = triple b)
    /\ Precedence b a = - Precedence a b
    /\ (Precedence a b = 1 -> Precedence b c = 1 -> Precedence a c = 1)
    /\ (Precedence a b = -1 -> Precedence b c = -1 -> Precedence a c = -1)
    /\ (Precedence a b = 0 -> Precedence b c = 0 -> Precedence a c = 0)
    /\ (forall m n : string,
          Precedence (with_metadata a m) (with_metadata b n) = Precedence a b).
Proof.
  intros a b c.
  split; [apply Precedence_values|].
  split; [apply Precedence_gt|].
  split; [apply Precedence_lt|].
  split; [apply Precedence_eq|].
  split.
  { intros [H1 H2]. exact (lex_gt_irrefl _ (lex_gt_trans _ _ _ H1 H2)). }
  split.
  { intros [H1 H2]. rewrite H2 in H1. exact (lex_gt_irrefl _ H1). }
  split.
  { intros [H1 H2]. rewrite H2 in H1. exact (lex_gt_irrefl _ H1). }
  split; [apply Precedence_flip|].
  split.
  { rewrite !Precedence_gt. apply lex_gt_trans. }
  split.
  { rewrite !Precedence_lt. intros H1 H2. exact (lex_gt_trans _ _ _ H2 H1). }
  split.
  { rewrite !Precedence_eq. intros H1 H2. congruence. }
  intros m n. reflexivity.
Qed.

(** ** Slices of strings *)

Lemma substring_prefix (n : nat) :
  forall s : string,
    (n <= String.length s)%nat ->
    exists q : string,
      s = (substring 0 n s ++ q)%string
      /\ String.length (substring 0 n s) = n.
Proof.
  induction n as [|n IH]; intros s Hn.
  - exists s. destruct s; simpl; auto.
  - destruct s as [|c s]; simpl in Hn; [lia|].
    destruct (IH s ltac:(lia)) as [q [Hq Hl]].
    exists q. simpl. rewrite <- Hq, Hl. auto.
Qed.

Lemma substring_drop_last (k : nat) :
  forall s : string,
    String.length s = S k ->
    exists c : ascii, s = (substring 0 k s ++ String c EmptyString)%string.
Proof.
  induction k as [|k IH]; intros s Hs.
  - destruct s as [|c [|d s]]; simpl in Hs; try discriminate.
    exists c. reflexivity.
  - destruct s as [|c s]; simpl in Hs; [discriminate|].
    destruct (IH s ltac:(lia)) as [d Hd].
    exists d. simpl. rewrite <- Hd. reflexivity.
Qed.

(** ** The commit grammar *)

Lemma matched_message_nonempty (message : string) :
  conventionalCommitRegex_MatchString message = true ->
  (0 < String.length message)%nat.
Proof.
  destruct message as [|c r]; simpl; [discriminate | lia].
Qed.

(** On a message of the grammar [shortMessage] does not panic. *)
Lemma shortMessage_matched (message : string) :
  conventionalCommitRegex_MatchString message = true ->
  exists sm : string, shortMessage message = Ok sm.
Proof.
  intros Hm. apply matched_message_nonempty in Hm. unfold shortMessage.
  destruct (60 <? String.length message)%nat; [eauto|].
  destruct (Nat.eqb_spec (String.length message) 0); [lia | eauto].
Qed.

Lemma ascii_not_continuation (c : ascii) :
  is_ascii c = true -> is_continuation c = false.
Proof.
  unfold is_ascii, is_continuation, in_span.
  rewrite andb_true_iff, andb_false_iff, !Z.leb_le, Z.leb_gt. lia.
Qed.

Lemma character_count_ascii (s : string) :
  all_chars is_ascii s = true -> character_count s = String.length s.
Proof.
  induction s as [|c r IH]; [reflexivity|]. simpl.
  rewrite andb_true_iff. intros [Hc Hr].
  rewrite (ascii_not_continuation c Hc), (IH Hr). reflexivity.
Qed.

Lemma take_characters_ascii (s : string) :
  forall n : nat,
    all_chars is_ascii s = true -> take_characters n s = substring 0 n s.
Proof.
  induction s as [|c r IH]; intros n Hall.
  - destruct n; reflexivity.
  - simpl in Hall. apply andb_true_iff in Hall. destruct Hall as [Hc Hr].
    cbn [take_characters]. rewrite (ascii_not_continuation c Hc).
    destruct n as [|n]; [reflexivity|].
    rewrite (IH n Hr). reflexivity.
Qed.

(** C8, as the program has it.  For every commit message of the
    conventional-commit grammar the summary is computed (no panic); it is
    the first 57 bytes of the message followed by three dots when the
    message is longer than 60 bytes, and the message without its last byte
    otherwise.  For a message of ASCII text, where a character is a byte,
    this is the summary the specification words in characters. *)
Theorem shortMessage_summary :
  forall message : string,
    conventionalCommitRegex_MatchString message = true ->
    ((60 < String.length message)%nat ->
       exists p q : string,
         message = (p ++ q)%string /\ String.length p = 57%nat
         /\ shortMessage message = Ok (p ++ "...")%string)
    /\ ((String.length message <= 60)%nat ->
          exists (p : string) (c : ascii),
            message = (p ++ String c EmptyString)%string
            /\ shortMessage message = Ok p)
    /\ (all_chars is_ascii message = true ->
        shortMessage message = Ok (summary_in_characters message)).
Proof.
  intros message Hm. apply matched_message_nonempty in Hm.
  unfold shortMessage. split; [|split].
  - intros Hlen.
    destruct (Nat.ltb_spec 60 (String.length message)); [|lia].
    destruct (substring_prefix 57 message ltac:(lia)) as [q [Hq Hl]].
    exists (substring 0 57 message), q. auto.
  - intros Hlen.
    destruct (Nat.ltb_spec 60 (String.length message)); [lia|].
    destruct (Nat.eqb_spec (String.length message) 0); [lia|].
    destruct (substring_drop_last (String.length message - 1) message
                ltac:(lia)) as [c Hc].
    exists (substring 0 (String.length message - 1) message), c. auto.
  - intros Hascii. unfold summary_in_characters, drop_last_character.
    rewrite (character_count_ascii message Hascii).
    rewrite !(take_characters_ascii message _ Hascii).
    destruct (60 <? String.length message)%nat; [reflexivity|].
    destruct (Nat.eqb_spec (String.length message) 0); [lia | reflexivity].
Qed.

Lemma shortMessage_summary_witness :
  (conventionalCommitRegex_MatchString long_message = true
   /\ (60 < String.length long_message)%nat
   /\ all_chars is_ascii long_message = true
   /\ (exists p q : string,
         long_message = (p ++ q)%string /\ String.length p = 57%nat
         /\ shortMessage long_message = Ok (p ++ "...")%string)
   /\ shortMessage long_message = Ok (summary_in_characters long_message))
  /\ (conventionalCommitRegex_MatchString "feat: add the parser " = true
      /\ (String.length "feat: add the parser " <= 60)%nat
      /\ exists (p : string) (c : ascii),
           "feat: add the parser " = (p ++ String c EmptyString)%string
           /\ shortMessage "feat: add the parser " = Ok p).
Proof.
  split.
  - destruct (shortMessage_summary long_message eq_refl) as (Hlong & _ & Hchar).
    split; [reflexivity|]. split; [apply Nat.ltb_lt; reflexivity|].
    split; [reflexivity|].
    split; [apply Hlong; apply Nat.ltb_lt; reflexivity | apply Hchar; reflexivity].
  - split; [reflexivity|]. split; [simpl; lia|].
    apply (shortMessage_summary "feat: add the parser " eq_refl).
    simpl; lia.
Defined.

(** C8, as it is stated, fails on text that is not ASCII.  The message
    [accented_message] is of the grammar and has 34 characters in 62 bytes:
    counted in characters it is not longer than 60, and its summary would be
    the message without its last character; the program finds it longer
    than 60, keeps 57 bytes, which ends in the middle of a character, and
    adds the dots. *)
Lemma shortMessage_cuts_bytes_not_characters :
  conventionalCommitRegex_MatchString accented_message = true
  /\ character_count accented_message = 34%nat
  /\ String.length accented_message = 62%nat
  /\ summary_in_characters accented_message
     = drop_last_character accented_message
  /\ shortMessage accented_message
     = Ok (substring 0 57 accented_message ++ "...")%string
  /\ shortMessage accented_message
     <> Ok (summary_in_characters accented_message)
  /\ option_map is_continuation (get 57 accented_message) = Some true.
Proof.
  split; [vm_compute; reflexivity|]. split; [vm_compute; reflexivity|].
  split; [vm_compute; reflexivity|]. split; [vm_compute; reflexivity|].
  split; [vm_compute; reflexivity|].
  split; [vm_compute; discriminate | vm_compute; reflexivity].
Qed.

(** ** Validation of the release rules *)

Lemma oneof_In (vals : list string) (v : string) :
  oneof vals v = true <-> In v vals.
Proof.
  unfold oneof. rewrite existsb_exists. split.
  - intros [x [Hx Heq]]. apply String.eqb_eq in Heq. subst. exact Hx.
  - intros Hin. exists v. split; [exact Hin | apply String.eqb_refl].
Qed.

Lemma validate_ReleaseRule_spec (rule : ReleaseRule) :
  validate_ReleaseRule rule = true
  <-> In (CommitType rule) commitTypes /\ In (ReleaseType rule) releaseTypes.
Proof.
  unfold validate_ReleaseRule, required_string.
  rewrite !andb_true_iff, !negb_true_iff, !oneof_In. split.
  - tauto.
  - intros [Hc Hr]. repeat split; auto.
    + apply String.eqb_neq. intros E. rewrite E in Hc. simpl in Hc.
      repeat (destruct Hc as [Hc|Hc]; [discriminate|]). exact Hc.
    + apply String.eqb_neq. intros E. rewrite E in Hr. simpl in Hr.
      repeat (destruct Hr as [Hr|Hr]; [discriminate|]). exact Hr.
Qed.

Lemma forallb_false_exists {A : Type} (f : A -> bool) (l : list A) :
  forallb f l = false <-> exists x : A, In x l /\ f x = false.
Proof.
  induction l as [|a l IH]; simpl.
  - split; [discriminate | intros [x [[] _]]].
  - rewrite andb_false_iff, IH. split.
    + intros [Ha | [x [Hx Hf]]]; eauto.
    + intros [x [[Hx | Hx] Hf]]; subst; eauto.
Qed.

Lemma validate_ReleaseRule_false (rule : ReleaseRule) :
  validate_ReleaseRule rule = false <-> rule_outside rule.
Proof.
  unfold rule_outside.
  pose proof (validate_ReleaseRule_spec rule) as Hs.
  destruct (validate_ReleaseRule rule).
  - split; [discriminate|]. intros [Hn | Hn]; exfalso; apply Hn; tauto.
  - split; [|reflexivity]. intros _.
    destruct (in_dec string_dec (CommitType rule) commitTypes) as [Hc|Hc];
      [|left; exact Hc].
    destruct (in_dec string_dec (ReleaseType rule) releaseTypes) as [Hr|Hr];
      [|right; exact Hr].
    assert (false = true) by (apply Hs; tauto). discriminate.
Qed.

(** C7, as the program has it.  [ParseReleaseRules] fails exactly when the
    document gave no rule set (a [nil] pointer), or the rule list is absent
    (a [nil] slice), or some rule has a commit type outside the eleven types
    or a severity outside major, minor, patch.  A list that is present and
    empty is accepted; a success returns the rule set as it was given,
    duplicates included; the validation never panics. *)
Theorem ParseReleaseRules_fails_iff :
  forall decoded : option ReleaseRules,
    ((exists msg : string, ParseReleaseRules decoded = Err msg)
     <-> (decoded = None
          \/ (exists rr : ReleaseRules,
                decoded = Some rr
                /\ (Rules rr = None
                    \/ exists rule : ReleaseRule,
                         In rule (slice_elems (Rules rr))
                         /\ rule_outside rule))))
    /\ (forall rr : ReleaseRules,
          ParseReleaseRules decoded = Ok rr -> decoded = Some rr)
    /\ (forall msg : string, ParseReleaseRules decoded <> Abort msg)
    /\ ParseReleaseRules (Some (mkReleaseRules (Some [])))
       = Ok (mkReleaseRules (Some []))
    /\ ParseReleaseRules
         (Some (mkReleaseRules
                  (Some [mkReleaseRule "feat" "minor";
                         mkReleaseRule "feat" "patch"])))
       = Ok (mkReleaseRules
               (Some [mkReleaseRule "feat" "minor";
                      mkReleaseRule "feat" "patch"])).
Proof.
  intros decoded. unfold ParseReleaseRules.
  destruct decoded as [[[rules|]]|]; simpl.
  - destruct (forallb validate_ReleaseRule rules) eqn:Hall.
    + repeat split; try discriminate; try congruence.
      * intros [msg Hm]. discriminate.
      * intros [E | [rr [E [Hn | [rule [Hin Hout]]]]]]; try discriminate.
        { injection E as <-. discriminate. }
        injection E as <-. simpl in Hin.
        rewrite forallb_forall in Hall. specialize (Hall rule Hin).
        apply validate_ReleaseRule_false in Hout. congruence.
    + repeat split; try discriminate; try congruence.
      * intros _. right. eexists. split; [reflexivity|]. right.
        apply forallb_false_exists in Hall. destruct Hall as [rule [Hin Hf]].
        exists rule. split; [exact Hin|].
        apply validate_ReleaseRule_false. exact Hf.
      * intros _. eauto.
  - repeat split; try discriminate; try congruence.
    + intros _. right. eexists. split; [reflexivity|]. left. reflexivity.
    + intros _. eauto.
  - repeat split; try discriminate; try congruence.
    + intros _. left. reflexivity.
    + intros _. eauto.
Qed.

(** C7, as it is stated, fails on the empty list: a rule list that is
    present and empty passes the validation. *)
Lemma ParseReleaseRules_accepts_empty_list :
  slice_elems (Rules (mkReleaseRules (Some []))) = []
  /\ ParseReleaseRules (Some (mkReleaseRules (Some [])))
     = Ok (mkReleaseRules (Some [])).
Proof. split; reflexivity. Qed.

(** ** The history loop *)

Lemma submatch_shape (message : string) :
  conventionalCommitRegex_MatchString message = true ->
  exists ty scope bang g4 g5 : string,
    conventionalCommitRegex_FindStringSubmatch message
    = [message; ty; scope; bang; g4; g5]
    /\ (bang = "" \/ bang = "!").
Proof.
  unfold conventionalCommitRegex_MatchString,
    conventionalCommitRegex_FindStringSubmatch.
  destruct (match_alternatives commitTypes message) as [[ty r1]|];
    [|discriminate].
  destruct (match_scope r1) as [[scope r2]|]; [|discriminate].
  destruct (match_bang r2) as [bang r3] eqn:Hb.
  destruct (strip_prefix ": " r3) as [r4|]; [|discriminate].
  destruct (span is_desc_char r4) as [descr body].
  destruct descr as [|d descr]; [discriminate|].
  intros _. exists ty, scope, bang, (last_char (String d descr)), body.
  split; [reflexivity|].
  unfold match_bang in Hb.
  destruct r2 as [|c r2]; [injection Hb as <- _; auto|].
  destruct c as [[] [] [] [] [] [] [] []]; injection Hb as <- _; auto.
Qed.

Lemma breaking_commit_iff (c : Commit) :
  conventionalCommitRegex_MatchString (Commit_Message c) = true ->
  (breaking_commit c = true
   <-> nth 3 (conventionalCommitRegex_FindStringSubmatch (Commit_Message c)) ""
       = "!"
       \/ Contains (Commit_Message c) "BREAKING CHANGE" = true).
Proof.
  intros Hm. unfold breaking_commit. rewrite Hm. simpl.
  destruct (submatch_shape _ Hm) as [ty [scope [bang [g4 [g5 [-> Hb]]]]]].
  unfold breakingChange. simpl. rewrite orb_true_iff.
  destruct Hb as [-> | ->]; simpl; split; intros [H|H]; auto; discriminate.
Qed.

Section HistoryLoop.

Variable rules : list ReleaseRule.

Lemma historyLoop_skip (c : Commit) (rest : list Commit) (st : Run) :
  conventionalCommitRegex_MatchString (Commit_Message c) = false ->
  historyLoop rules (c :: rest) st = historyLoop rules rest st.
Proof. intros Hm. simpl. rewrite Hm. reflexivity. Qed.

Lemma historyLoop_breaking (c : Commit) (rest : list Commit) (st : Run) :
  breaking_commit c = true ->
  historyLoop rules (c :: rest) st
  = Ok (bump BumpMajor (Printf (breaking_line c) st)).
Proof.
  unfold breaking_commit. rewrite andb_true_iff. intros [Hm Hb].
  simpl. rewrite Hm. simpl.
  destruct (shortMessage_matched _ Hm) as [sm ->]. simpl.
  rewrite Hb. reflexivity.
Qed.

Lemma historyLoop_classified (c : Commit) (rest : list Commit) (st : Run) :
  conventionalCommitRegex_MatchString (Commit_Message c) = true ->
  breaking_commit c = false ->
  exists sm : string,
    shortMessage (Commit_Message c) = Ok sm
    /\ historyLoop rules (c :: rest) st
       = historyLoop rules rest
           (rulesLoop (commit_type c) (substring 0 7 (Commit_Hash c)) sm
              rules st).
Proof.
  unfold breaking_commit. intros Hm Hb. rewrite Hm in Hb. simpl in Hb.
  destruct (shortMessage_matched _ Hm) as [sm Hsm]. exists sm.
  split; [exact Hsm|].
  simpl. rewrite Hm, Hsm. simpl. rewrite Hb. reflexivity.
Qed.

Lemma historyLoop_not_breaking (c : Commit) (rest : list Commit) (st : Run) :
  breaking_commit c = false ->
  exists st' : Run,
    historyLoop rules [c] st = Ok st'
    /\ historyLoop rules (c :: rest) st = historyLoop rules rest st'.
Proof.
  intros Hb.
  destruct (conventionalCommitRegex_MatchString (Commit_Message c)) eqn:Hm.
  - destruct (historyLoop_classified c rest st Hm Hb) as [sm [Hsm Hrest]].
    destruct (historyLoop_classified c [] st Hm Hb) as [sm' [Hsm' Hone]].
    rewrite Hsm in Hsm'. injection Hsm' as <-.
    eexists. split; [exact Hone | exact Hrest].
  - exists st. rewrite !historyLoop_skip by exact Hm. auto.
Qed.

(** The loop always returns: it does not panic and reports no error. *)
Lemma historyLoop_total (history : list Commit) :
  forall st : Run, exists st' : Run, historyLoop rules history st = Ok st'.
Proof.
  induction history as [|c rest IH]; intros st.
  - exists st. reflexivity.
  - destruct (breaking_commit c) eqn:Hb.
    + rewrite historyLoop_breaking by exact Hb. eauto.
    + destruct (historyLoop_not_breaking c rest st Hb) as [st1 [_ ->]].
      apply IH.
Qed.

(** A prefix of the history without breaking commit is walked entirely. *)
Lemma historyLoop_app (pre : list Commit) :
  forall (post : list Commit) (st : Run),
    (forall x : Commit, In x pre -> breaking_commit x = false) ->
    exists st' : Run,
      historyLoop rules pre st = Ok st'
      /\ historyLoop rules (pre ++ post) st = historyLoop rules post st'.
Proof.
  induction pre as [|c pre IH]; intros post st Hpre.
  - exists st. auto.
  - assert (Hc : breaking_commit c = false) by (apply Hpre; left; reflexivity).
    destruct (historyLoop_not_breaking c pre st Hc) as [st1 [H1 E1]].
    destruct (historyLoop_not_breaking c (pre ++ post) st Hc)
      as [st2 [H2 E2]].
    assert (st1 = st2) by congruence. subst st2.
    destruct (IH post st1 ltac:(intros x Hx; apply Hpre; right; exact Hx))
      as [st' [Ha Hb]].
    exists st'. simpl app. rewrite E1, E2. auto.
Qed.

End HistoryLoop.

(** ** The breaking commit *)

(** C1. When the loop reaches a commit classified as breaking (no commit
    before it is), it bumps the major component, sets the new-release flag
    and stops: the result is the major bump of what the earlier commits
    gave, whatever commits follow, and nothing is logged for them.  A
    commit of the grammar is breaking exactly when its [!] group is there or
    its message contains BREAKING CHANGE.  From 1.0.0 with the rules
    feat->minor, fix->patch, the history "feat!: breaking change", "fix: c"
    gives (2.0.0, true), with the breaking commit's line as the only one
    logged. *)
Theorem breaking_commit_ends_loop :
  (forall (rules : list ReleaseRule) (pre : list Commit) (c : Commit)
          (post : list Commit) (st : Run),
      (forall x : Commit, In x pre -> breaking_commit x = false) ->
      breaking_commit c = true ->
      exists st' : Run,
        historyLoop rules pre st = Ok st'
        /\ historyLoop rules (pre ++ c :: post) st
           = Ok (mkRun (BumpMajor (semver st')) true
                   (logged st' ++ [breaking_line c])))
  /\ (forall c : Commit,
        conventionalCommitRegex_MatchString (Commit_Message c) = true ->
        (breaking_commit c = true
         <-> nth 3 (conventionalCommitRegex_FindStringSubmatch
                      (Commit_Message c)) "" = "!"
             \/ Contains (Commit_Message c) "BREAKING CHANGE" = true))
  /\ historyLoop rules_feat_fix
       [commit_of "feat!: breaking change"; commit_of "fix: c"]
       (mkRun version_1_0_0 false [])
     = Ok (mkRun (mkSemver 2 0 0 "") true ["(0123456) breaking change"]).
Proof.
  split; [|split].
  - intros rules pre c post st Hpre Hc.
    destruct (historyLoop_app rules pre (c :: post) st Hpre)
      as [st' [Hrun Happ]].
    exists st'. split; [exact Hrun|].
    rewrite Happ. apply historyLoop_breaking. exact Hc.
  - exact breaking_commit_iff.
  - reflexivity.
Qed.

Lemma breaking_commit_ends_loop_witness :
  exists st' : Run,
    historyLoop rules_feat_fix [commit_of "fix: a"]
      (mkRun version_1_0_0 false []) = Ok st'
    /\ historyLoop rules_feat_fix
         ([commit_of "fix: a"]
          ++ commit_of "docs: x BREAKING CHANGE" :: [commit_of "feat: b"])
         (mkRun version_1_0_0 false [])
       = Ok (mkRun (BumpMajor (semver st')) true
               (logged st'
                ++ [breaking_line (commit_of "docs: x BREAKING CHANGE")])).
Proof.
  apply (proj1 breaking_commit_ends_loop).
  - intros x [<- | []]. reflexivity.
  - reflexivity.
Defined.

(** ** The rules of one commit *)

Lemma semver_applyRule (h sm : string) (rule : ReleaseRule) (st : Run) :
  semver (applyRule h sm rule st) = bump_of (ReleaseType rule) (semver st).
Proof.
  unfold applyRule, bump_of.
  destruct (String.eqb (ReleaseType rule) "patch"); [reflexivity|].
  destruct (String.eqb (ReleaseType rule) "minor"); [reflexivity|].
  destruct (String.eqb (ReleaseType rule) "major"); reflexivity.
Qed.

Lemma newRelease_applyRule (h sm : string) (rule : ReleaseRule) (st : Run) :
  newRelease (applyRule h sm rule st)
  = newRelease st || oneof releaseTypes (ReleaseType rule).
Proof.
  unfold applyRule, oneof, releaseTypes. simpl.
  destruct (String.eqb (ReleaseType rule) "patch");
    [simpl; rewrite !orb_true_r; reflexivity|].
  destruct (String.eqb (ReleaseType rule) "minor");
    [simpl; rewrite !orb_true_r; reflexivity|].
  destruct (String.eqb (ReleaseType rule) "major"); simpl;
    [rewrite !orb_true_r | rewrite !orb_false_r]; reflexivity.
Qed.

Lemma rulesLoop_fold (ty h sm : string) (rules : list ReleaseRule) :
  forall st : Run,
    rulesLoop ty h sm rules st
    = fold_left (fun acc rule => applyRule h sm rule acc)
        (matching_rules ty rules) st.
Proof.
  induction rules as [|rule rules IH]; intros st; simpl; [reflexivity|].
  destruct (String.eqb ty (CommitType rule)); simpl; apply IH.
Qed.

Lemma fold_applyRule_semver (h sm : string) (l : list ReleaseRule) :
  forall st : Run,
    semver (fold_left (fun acc rule => applyRule h sm rule acc) l st)
    = fold_left (fun v rule => bump_of (ReleaseType rule) v) l (semver st).
Proof.
  induction l as [|rule l IH]; intros st; simpl; [reflexivity|].
  rewrite IH, semver_applyRule. reflexivity.
Qed.

Lemma fold_applyRule_newRelease (h sm : string) (l : list ReleaseRule) :
  forall st : Run,
    newRelease (fold_left (fun acc rule => applyRule h sm rule acc) l st)
    = newRelease st
      || existsb (fun rule => oneof releaseTypes (ReleaseType rule)) l.
Proof.
  induction l as [|rule l IH]; intros st; simpl.
  - rewrite orb_false_r. reflexivity.
  - rewrite IH, newRelease_applyRule, orb_assoc. reflexivity.
Qed.

Lemma existsb_valid_rules (l : list ReleaseRule) :
  forallb validate_ReleaseRule l = true ->
  existsb (fun rule => oneof releaseTypes (ReleaseType rule)) l
  = negb (Nat.eqb (List.length l) 0).
Proof.
  destruct l as [|rule l]; [reflexivity|].
  cbn [forallb existsb List.length Nat.eqb negb].
  rewrite andb_true_iff. intros [Hv _].
  unfold validate_ReleaseRule in Hv. rewrite !andb_true_iff in Hv.
  destruct Hv as [_ [_ ->]]. reflexivity.
Qed.

Lemma forallb_filter {A : Type} (f g : A -> bool) (l : list A) :
  forallb f l = true -> forallb f (filter g l) = true.
Proof.
  rewrite !forallb_forall. intros Hall x Hx.
  apply filter_In in Hx. apply Hall. tauto.
Qed.

(** C2. For a commit of the grammar that is not breaking, every rule whose
    commit type is the commit's type is applied, in the order of the rule
    list: the version after the commit is the fold of the rules' bumps
    (patch, minor, major) over the matching rules, and the flag is set as
    soon as one of them names a severity; with a validated rule list, as
    soon as one rule matches.  The loop then goes on from that state.
    From 1.0.0 with the rules feat->minor, feat->patch and the one commit
    "feat: x" the result is (1.1.1, true). *)
Theorem matching_rules_all_applied :
  (forall (rules : list ReleaseRule) (c : Commit) (st : Run),
      conventionalCommitRegex_MatchString (Commit_Message c) = true ->
      breaking_commit c = false ->
      exists st' : Run,
        historyLoop rules [c] st = Ok st'
        /\ semver st'
           = fold_left (fun v rule => bump_of (ReleaseType rule) v)
               (matching_rules (commit_type c) rules) (semver st)
        /\ newRelease st'
           = newRelease st
             || existsb (fun rule => oneof releaseTypes (ReleaseType rule))
                  (matching_rules (commit_type c) rules)
        /\ (forallb validate_ReleaseRule rules = true ->
            newRelease st'
            = newRelease st
              || negb (Nat.eqb
                         (List.length (matching_rules (commit_type c) rules))
                         0))
        /\ (forall rest : list Commit,
              historyLoop rules (c :: rest) st = historyLoop rules rest st'))
  /\ (exists lines : list string,
        historyLoop rules_feat_twice [commit_of "feat: x"]
          (mkRun version_1_0_0 false [])
        = Ok (mkRun (mkSemver 1 1 1 "") true lines)).
Proof.
  split.
  - intros rules c st Hm Hb.
    destruct (historyLoop_classified rules c [] st Hm Hb) as [sm [Hsm Hone]].
    simpl in Hone.
    exists (rulesLoop (commit_type c) (substring 0 7 (Commit_Hash c)) sm
              rules st).
    split; [exact Hone|].
    rewrite rulesLoop_fold, fold_applyRule_semver, fold_applyRule_newRelease.
    split; [reflexivity|]. split; [reflexivity|]. split.
    + intros Hvalid. f_equal. apply existsb_valid_rules.
      apply forallb_filter. exact Hvalid.
    + intros rest.
      destruct (historyLoop_classified rules c rest st Hm Hb)
        as [sm' [Hsm' Hrest]].
      rewrite Hsm in Hsm'. injection Hsm' as <-.
      rewrite Hrest, rulesLoop_fold. reflexivity.
  - eexists. reflexivity.
Qed.

Lemma matching_rules_all_applied_witness :
  exists st' : Run,
    historyLoop rules_feat_twice [commit_of "feat(core): y"]
      (mkRun (mkSemver 0 4 2 "") false []) = Ok st'
    /\ semver st' = mkSemver 0 5 1 ""
    /\ newRelease st' = true.
Proof.
  destruct (proj1 matching_rules_all_applied rules_feat_twice
              (commit_of "feat(core): y") (mkRun (mkSemver 0 4 2 "") false [])
              eq_refl eq_refl) as [st' [Hrun [Hver [Hflag _]]]].
  exists st'. split; [exact Hrun|]. split; [exact Hver | exact Hflag].
Defined.

(** ** The short-circuit and the continuing variant *)

Section Continue.

Variable rules : list ReleaseRule.

Lemma historyLoop_continue_skip (c : Commit) (rest : list Commit) (st : Run) :
  conventionalCommitRegex_MatchString (Commit_Message c) = false ->
  historyLoop_continue rules (c :: rest) st
  = historyLoop_continue rules rest st.
Proof. intros Hm. simpl. rewrite Hm. reflexivity. Qed.

Lemma historyLoop_continue_breaking (c : Commit) (rest : list Commit)
  (st : Run) :
  breaking_commit c = true ->
  historyLoop_continue rules (c :: rest) st
  = historyLoop_continue rules rest
      (bump BumpMajor (Printf (breaking_line c) st)).
Proof.
  unfold breaking_commit. rewrite andb_true_iff. intros [Hm Hb].
  simpl. rewrite Hm. simpl.
  destruct (shortMessage_matched _ Hm) as [sm ->]. simpl.
  rewrite Hb. reflexivity.
Qed.

Lemma historyLoop_continue_classified (c : Commit) (rest : list Commit)
  (st : Run) :
  conventionalCommitRegex_MatchString (Commit_Message c) = true ->
  breaking_commit c = false ->
  exists sm : string,
    shortMessage (Commit_Message c) = Ok sm
    /\ historyLoop_continue rules (c :: rest) st
       = historyLoop_continue rules rest
           (rulesLoop (commit_type c) (substring 0 7 (Commit_Hash c)) sm
              rules st).
Proof.
  unfold breaking_commit. intros Hm Hb. rewrite Hm in Hb. simpl in Hb.
  destruct (shortMessage_matched _ Hm) as [sm Hsm]. exists sm.
  split; [exact Hsm|].
  simpl. rewrite Hm, Hsm. simpl. rewrite Hb. reflexivity.
Qed.

(** The continuing variant is the program's loop followed by the
    continuing variant on the commits the loop did not look at. *)
Lemma historyLoop_continue_split (history : list Commit) :
  forall st : Run,
    historyLoop_continue rules history st
    = (st' <- historyLoop rules history st ;;
       historyLoop_continue rules (after_breaking history) st').
Proof.
  induction history as [|c rest IH]; intros st; [reflexivity|].
  cbn [after_breaking].
  destruct (breaking_commit c) eqn:Hb.
  - rewrite historyLoop_continue_breaking, historyLoop_breaking by exact Hb.
    reflexivity.
  - destruct (conventionalCommitRegex_MatchString (Commit_Message c)) eqn:Hm.
    + destruct (historyLoop_continue_classified c rest st Hm Hb)
        as [sm [Hsm ->]].
      destruct (historyLoop_classified rules c rest st Hm Hb)
        as [sm' [Hsm' ->]].
      rewrite Hsm in Hsm'. injection Hsm' as <-. apply IH.
    + rewrite historyLoop_continue_skip, historyLoop_skip by exact Hm.
      apply IH.
Qed.

Lemma rulesLoop_no_match (ty h sm : string) (st : Run) :
  Nat.eqb (List.length (matching_rules ty rules)) 0 = true ->
  rulesLoop ty h sm rules st = st.
Proof.
  intros Hn. rewrite rulesLoop_fold.
  destruct (matching_rules ty rules); [reflexivity | discriminate].
Qed.

Lemma historyLoop_continue_inert (l : list Commit) :
  forall st : Run,
    (forall x : Commit, In x l -> inert rules x = true) ->
    historyLoop_continue rules l st = Ok st.
Proof.
  induction l as [|c l IH]; intros st Hl; [reflexivity|].
  assert (Hc : inert rules c = true) by (apply Hl; left; reflexivity).
  assert (Hrest : forall x : Commit, In x l -> inert rules x = true)
    by (intros x Hx; apply Hl; right; exact Hx).
  unfold inert in Hc.
  destruct (conventionalCommitRegex_MatchString (Commit_Message c)) eqn:Hm.
  - simpl in Hc. apply andb_true_iff in Hc. destruct Hc as [Hb Hn].
    apply negb_true_iff in Hb.
    destruct (historyLoop_continue_classified c l st Hm Hb) as [sm [_ ->]].
    rewrite rulesLoop_no_match by exact Hn. apply IH. exact Hrest.
  - rewrite historyLoop_continue_skip by exact Hm. apply IH. exact Hrest.
Qed.

End Continue.

(** C3, as the program has it.  The continuing variant computes what the
    short-circuit loop computes and then goes on over the commits that
    follow the first breaking commit; so the two give the same version, flag
    and log when each of those commits is inert (not of the grammar, or not
    breaking and without a rule for its type), and in particular when no
    commit is breaking. *)
Theorem short_circuit_and_continue :
  forall (rules : list ReleaseRule) (history : list Commit) (st : Run),
    historyLoop_continue rules history st
    = (st' <- historyLoop rules history st ;;
       historyLoop_continue rules (after_breaking history) st')
    /\ ((forall x : Commit,
           In x (after_breaking history) -> inert rules x = true) ->
        exists st' : Run,
          historyLoop rules history st = Ok st'
          /\ historyLoop_continue rules history st = Ok st')
    /\ ((forall x : Commit, In x history -> breaking_commit x = false) ->
        historyLoop_continue rules history st
        = historyLoop rules history st).
Proof.
  intros rules history st.
  pose proof (historyLoop_continue_split rules history st) as Hsplit.
  destruct (historyLoop_total rules history st) as [st' Hrun].
  split; [exact Hsplit|]. split.
  - intros Hinert. exists st'. split; [exact Hrun|].
    rewrite Hsplit, Hrun. simpl.
    apply historyLoop_continue_inert. exact Hinert.
  - intros Hnone. rewrite Hsplit, Hrun. simpl.
    assert (Hnil : after_breaking history = []).
    { clear - Hnone. induction history as [|c rest IH]; [reflexivity|].
      simpl. rewrite (Hnone c (or_introl eq_refl)).
      apply IH. intros x Hx. apply Hnone. right. exact Hx. }
    rewrite Hnil. reflexivity.
Qed.

Lemma short_circuit_and_continue_witness :
  exists st' : Run,
    historyLoop rules_feat_fix
      [commit_of "fix: a"; commit_of "feat!: b"; commit_of "docs: c";
       commit_of "wip"]
      (mkRun version_1_0_0 false []) = Ok st'
    /\ historyLoop_continue rules_feat_fix
         [commit_of "fix: a"; commit_of "feat!: b"; commit_of "docs: c";
          commit_of "wip"]
         (mkRun version_1_0_0 false []) = Ok st'.
Proof.
  apply (proj1 (proj2 (short_circuit_and_continue rules_feat_fix
                         [commit_of "fix: a"; commit_of "feat!: b";
                          commit_of "docs: c"; commit_of "wip"]
                         (mkRun version_1_0_0 false [])))).
  intros x [<- | [<- | []]]; reflexivity.
Defined.

(** C3, as it is stated, fails: from 1.0.0 with the rules feat->minor,
    fix->patch and the history "feat!: breaking change", "fix: c", the loop
    stops at 2.0.0 and the continuing variant reaches 2.0.1. *)
Lemma short_circuit_changes_version :
  (exists a : Run,
     historyLoop rules_feat_fix
       [commit_of "feat!: breaking change"; commit_of "fix: c"]
       (mkRun version_1_0_0 false []) = Ok a
     /\ semver a = mkSemver 2 0 0 "")
  /\ (exists b : Run,
        historyLoop_continue rules_feat_fix
          [commit_of "feat!: breaking change"; commit_of "fix: c"]
          (mkRun version_1_0_0 false []) = Ok b
        /\ semver b = mkSemver 2 0 1 "")
  /\ mkSemver 2 0 0 "" <> mkSemver 2 0 1 "".
Proof.
  split; [eexists; split; reflexivity|].
  split; [eexists; split; reflexivity|].
  discriminate.
Qed.

(** ** Bumps and precedence *)

Lemma room_weaken (k k' : Z) (v : Semver) : k' <= k -> room k v -> room k' v.
Proof. unfold room. lia. Qed.

Lemma incr_room (k z : Z) :
  0 <= k -> 0 <= z <= GoInt.max_int - (k + 1) -> GoInt.incr z = z + 1.
Proof.
  intros Hk Hz. apply incr_small. unfold GoInt.min_int, GoInt.max_int in *. lia.
Qed.

Lemma bump_of_grows (severity : string) (k : Z) (v : Semver) :
  0 <= k -> room (k + 1) v ->
  room k (bump_of severity v)
  /\ (oneof releaseTypes severity = true ->
      lex_gt (triple (bump_of severity v)) (triple v))
  /\ (oneof releaseTypes severity = false -> bump_of severity v = v).
Proof.
  intros Hk (HM & Hm & Hp).
  pose proof (incr_room k _ Hk HM) as EM.
  pose proof (incr_room k _ Hk Hm) as Em.
  pose proof (incr_room k _ Hk Hp) as Ep.
  unfold bump_of, oneof, releaseTypes. cbn [existsb].
  assert (Hmax : 0 <= GoInt.max_int - k) by lia.
  destruct (String.eqb severity "patch").
  { unfold room, triple, lex_gt.
    cbn [BumpPatch Major Minor Patch orb]. rewrite Ep.
    rewrite !orb_true_r. repeat split; try lia; try discriminate. }
  destruct (String.eqb severity "minor").
  { unfold room, triple, lex_gt.
    cbn [BumpMinor Major Minor Patch orb]. rewrite Em.
    rewrite !orb_true_r. repeat split; try lia; try discriminate. }
  destruct (String.eqb severity "major").
  { unfold room, triple, lex_gt.
    cbn [BumpMajor Major Minor Patch orb]. rewrite EM.
    repeat split; try lia; try discriminate. }
  cbn [orb]. repeat split; unfold room; try lia; try discriminate.
Qed.

Lemma tracks_applyRule (start : Semver) (h sm : string) (rule : ReleaseRule)
  (k : Z) (st : Run) :
  0 <= k -> room (k + 1) (semver st) -> tracks start st ->
  room k (semver (applyRule h sm rule st))
  /\ tracks start (applyRule h sm rule st).
Proof.
  intros Hk Hroom Htr.
  destruct (bump_of_grows (ReleaseType rule) k (semver st) Hk Hroom)
    as (Hr & Hgt & Hsame).
  unfold tracks. rewrite semver_applyRule, newRelease_applyRule.
  split; [exact Hr|].
  destruct (oneof releaseTypes (ReleaseType rule)) eqn:Hone.
  - right. rewrite orb_true_r. split; [reflexivity|].
    specialize (Hgt eq_refl).
    destruct Htr as [[_ Heq] | [_ Hlt]].
    + rewrite <- Heq. exact Hgt.
    + exact (lex_gt_trans _ _ _ Hgt Hlt).
  - rewrite orb_false_r, (Hsame eq_refl). exact Htr.
Qed.

Lemma tracks_rulesLoop (start : Semver) (ty h sm : string)
  (rules : list ReleaseRule) :
  forall (k : Z) (st : Run),
    0 <= k ->
    room (k + Z.of_nat (List.length rules)) (semver st) ->
    tracks start st ->
    room k (semver (rulesLoop ty h sm rules st))
    /\ tracks start (rulesLoop ty h sm rules st).
Proof.
  induction rules as [|rule rules IH]; intros k st Hk Hroom Htr.
  - simpl in *. split; [|exact Htr].
    apply (room_weaken (k + 0) k); [lia | exact Hroom].
  - cbn [rulesLoop].
    assert (Hlen : Z.of_nat (List.length (rule :: rules))
                   = Z.of_nat (List.length rules) + 1)
      by (cbn [List.length]; lia).
    rewrite Hlen in Hroom.
    destruct (negb (String.eqb ty (CommitType rule))).
    + apply IH; [exact Hk | | exact Htr].
      apply (room_weaken (k + (Z.of_nat (List.length rules) + 1)));
        [lia | exact Hroom].
    + destruct (tracks_applyRule start h sm rule
                  (k + Z.of_nat (List.length rules)) st ltac:(lia))
        as [Hr Ht]; [|exact Htr|].
      * apply (room_weaken (k + (Z.of_nat (List.length rules) + 1)));
          [lia | exact Hroom].
      * apply IH; assumption.
Qed.

Lemma tracks_bump_major (start : Semver) (line : string) (st : Run) :
  room 1 (semver st) -> tracks start st ->
  tracks start (bump BumpMajor (Printf line st)).
Proof.
  intros Hroom Htr.
  destruct (bump_of_grows "major" 0 (semver st) ltac:(lia) Hroom)
    as (_ & Hgt & _).
  specialize (Hgt eq_refl). change (bump_of "major" (semver st))
    with (BumpMajor (semver st)) in Hgt.
  right. split; [reflexivity|]. cbn [semver bump Printf].
  destruct Htr as [[_ Heq] | [_ Hlt]].
  - rewrite <- Heq. exact Hgt.
  - exact (lex_gt_trans _ _ _ Hgt Hlt).
Qed.

Lemma tracks_historyLoop (start : Semver) (rules : list ReleaseRule)
  (history : list Commit) :
  forall st : Run,
    room (Z.of_nat (List.length history) * Z.of_nat (List.length rules) + 1)
      (semver st) ->
    tracks start st ->
    exists st' : Run,
      historyLoop rules history st = Ok st' /\ tracks start st'.
Proof.
  induction history as [|c rest IH]; intros st Hroom Htr.
  - exists st. split; [reflexivity | exact Htr].
  - assert (Hlen : Z.of_nat (List.length (c :: rest))
                   = Z.of_nat (List.length rest) + 1)
      by (cbn [List.length]; lia).
    rewrite Hlen in Hroom.
    set (R := Z.of_nat (List.length rules)) in *.
    set (N := Z.of_nat (List.length rest)) in *.
    assert (HR : 0 <= R) by (unfold R; lia).
    assert (HN : 0 <= N) by (unfold N; lia).
    destruct (breaking_commit c) eqn:Hb.
    + rewrite historyLoop_breaking by exact Hb.
      eexists. split; [reflexivity|].
      apply tracks_bump_major; [|exact Htr].
      apply (room_weaken ((N + 1) * R + 1)); [nia | exact Hroom].
    + destruct (conventionalCommitRegex_MatchString (Commit_Message c))
        eqn:Hm.
      * destruct (historyLoop_classified rules c rest st Hm Hb)
          as [sm [_ ->]].
        destruct (tracks_rulesLoop start (commit_type c)
                    (substring 0 7 (Commit_Hash c)) sm rules
                    (N * R + 1) st ltac:(nia)) as [Hr Ht];
          [|exact Htr|].
        { apply (room_weaken ((N + 1) * R + 1)); [unfold R; nia|exact Hroom]. }
        apply IH; assumption.
      * rewrite historyLoop_skip by exact Hm.
        apply IH; [|exact Htr].
        apply (room_weaken ((N + 1) * R + 1)); [nia | exact Hroom].
Qed.

(** C9, as the program has it.  When the components of the starting
    version are non-negative and leave room for the bumps of the run (one per
    commit and rule, and one more), the loop returns a version whose
    precedence is not below the starting version's, and it is above exactly
    when the returned flag is true. *)
Theorem computed_version_not_below_start :
  forall (rules : list ReleaseRule) (history : list Commit)
         (start : Semver) (lines : list string),
    room (Z.of_nat (List.length history) * Z.of_nat (List.length rules) + 1)
      start ->
    exists st' : Run,
      historyLoop rules history (mkRun start false lines) = Ok st'
      /\ Precedence (semver st') start <> -1
      /\ (Precedence (semver st') start = 1 <-> newRelease st' = true)
      /\ (Precedence (semver st') start = 0 <-> newRelease st' = false).
Proof.
  intros rules history start lines Hroom.
  destruct (tracks_historyLoop start rules history (mkRun start false lines)
              Hroom) as [st' [Hrun Htr]].
  { left. split; reflexivity. }
  exists st'. split; [exact Hrun|].
  rewrite Precedence_lt, Precedence_gt, Precedence_eq.
  destruct Htr as [[Hf Heq] | [Hf Hgt]]; rewrite Hf.
  - rewrite Heq. pose proof (lex_gt_irrefl (triple start)).
    repeat split; try tauto; try discriminate.
  - assert (Hne : triple (semver st') <> triple start).
    { intros E. rewrite E in Hgt. exact (lex_gt_irrefl _ Hgt). }
    assert (Hnlt : ~ lex_gt (triple start) (triple (semver st'))).
    { intros H. exact (lex_gt_irrefl _ (lex_gt_trans _ _ _ H Hgt)). }
    repeat split; try tauto; try discriminate.
Qed.

Lemma computed_version_not_below_start_witness :
  exists st' : Run,
    historyLoop rules_feat_fix [commit_of "fix: a"; commit_of "feat: b"]
      (mkRun version_1_0_0 false []) = Ok st'
    /\ Precedence (semver st') version_1_0_0 <> -1
    /\ (Precedence (semver st') version_1_0_0 = 1 <-> newRelease st' = true)
    /\ (Precedence (semver st') version_1_0_0 = 0 <-> newRelease st' = false).
Proof.
  apply (computed_version_not_below_start rules_feat_fix
           [commit_of "fix: a"; commit_of "feat: b"] version_1_0_0 []).
  unfold room, version_1_0_0.
  cbn [List.length Major Minor Patch].
  repeat split; apply Z.leb_le; vm_compute; reflexivity.
Defined.

(** C9, as it is stated, fails at the top of the range of [int]: from
    0.0.9223372036854775807 with the rule fix->patch, the commit "fix: a"
    wraps the patch component around; the flag is true and the returned
    version has lower precedence than the starting one. *)
Lemma bump_at_max_int_lowers_precedence :
  exists st' : Run,
    historyLoop [mkReleaseRule "fix" "patch"] [commit_of "fix: a"]
      (mkRun (mkSemver 0 0 GoInt.max_int "") false []) = Ok st'
    /\ newRelease st' = true
    /\ semver st' = mkSemver 0 0 GoInt.min_int ""
    /\ Precedence (semver st') (mkSemver 0 0 GoInt.max_int "") = -1.
Proof.
  eexists. split; [vm_compute; reflexivity|].
  repeat split; vm_compute; reflexivity.
Qed.

(** ** Decimal numerals *)

Lemma append_assoc (a b c : string) :
  ((a ++ b) ++ c)%string = (a ++ (b ++ c))%string.
Proof. induction a as [|x a IH]; simpl; [reflexivity | rewrite IH; reflexivity]. Qed.

Lemma append_empty_r (a : string) : (a ++ "")%string = a.
Proof. induction a as [|x a IH]; simpl; [reflexivity | rewrite IH; reflexivity]. Qed.

Lemma length_append (a b : string) :
  String.length (a ++ b) = (String.length a + String.length b)%nat.
Proof. induction a as [|x a IH]; simpl; [reflexivity | rewrite IH; reflexivity]. Qed.

Lemma all_chars_append (p : ascii -> bool) (a b : string) :
  all_chars p (a ++ b) = all_chars p a && all_chars p b.
Proof.
  induction a as [|x a IH]; simpl; [reflexivity|].
  rewrite IH, andb_assoc. reflexivity.
Qed.

Lemma digit_char_facts (d : Z) :
  0 <= d <= 9 ->
  is_digit (digit_char d) = true
  /\ digit_val (digit_char d) = d
  /\ (d = 0 -> digit_char d = "0"%char)
  /\ (0 < d -> is_digit19 (digit_char d) = true).
Proof.
  intros Hd.
  assert (Hcases : d = 0 \/ d = 1 \/ d = 2 \/ d = 3 \/ d = 4 \/ d = 5
                   \/ d = 6 \/ d = 7 \/ d = 8 \/ d = 9) by lia.
  repeat (destruct Hcases as [-> | Hcases]); try subst d;
    (split; [reflexivity|]); (split; [reflexivity|]);
    (split; [intros E; try discriminate E; reflexivity|]);
    intros Hpos; try reflexivity; lia.
Qed.

Lemma is_digit19_digit (c : ascii) : is_digit19 c = true -> is_digit c = true.
Proof.
  unfold is_digit19, is_digit, in_span. rewrite !andb_true_iff, !Z.leb_le. lia.
Qed.

Lemma is_digit19_not_zero (c : ascii) :
  is_digit19 c = true -> Ascii.eqb c "0" = false.
Proof.
  intros H. destruct (Ascii.eqb_spec c "0"%char) as [->|]; [|reflexivity].
  discriminate H.
Qed.

Lemma decimal_one_digit (n : Z) :
  0 <= n < 10 -> decimal (String (digit_char n) EmptyString) n.
Proof.
  intros Hn. destruct (digit_char_facts n ltac:(lia)) as (Hd & Hv & Hz & Hp).
  unfold decimal. split; [simpl; rewrite Hd; reflexivity|]. split.
  - intros a rest. cbn [append digits_value String.length].
    rewrite Hd, Hv. reflexivity.
  - destruct (Z.eq_dec n 0) as [E|E].
    + left. split; [exact E|]. rewrite (Hz E). reflexivity.
    + right. split; [lia|]. eexists. eexists. split; [reflexivity|].
      apply Hp. lia.
Qed.

Lemma decimal_snoc (ds : string) (q d : Z) :
  0 < q -> 0 <= d <= 9 -> decimal ds q ->
  decimal (ds ++ String (digit_char d) EmptyString) (q * 10 + d).
Proof.
  intros Hq Hd (Hall & Hval & Hhead).
  destruct (digit_char_facts d Hd) as (Hdig & Hdv & _ & _).
  unfold decimal. split; [|split].
  - rewrite all_chars_append, Hall. simpl. rewrite Hdig. reflexivity.
  - intros a rest. rewrite append_assoc, Hval.
    cbn [append digits_value]. rewrite Hdig, Hdv. f_equal.
    rewrite length_append. cbn [String.length].
    rewrite Nat.add_1_r, Nat2Z.inj_succ, Z.pow_succ_r by lia. ring.
  - right. split; [lia|].
    destruct Hhead as [[E _] | [_ (c & r & -> & Hc)]]; [lia|].
    exists c, (r ++ String (digit_char d) EmptyString)%string.
    split; [reflexivity | exact Hc].
Qed.

Lemma fmt_digits_decimal (f : nat) :
  forall (n : Z) (acc : string),
    0 <= n < 10 ^ Z.of_nat (S f) ->
    exists ds : string,
      fmt_digits (S f) n acc = (ds ++ acc)%string /\ decimal ds n.
Proof.
  induction f as [|f IH]; intros n acc Hn.
  - change (10 ^ Z.of_nat 1) with 10 in Hn.
    exists (String (digit_char n) EmptyString).
    split; [|apply decimal_one_digit; exact Hn].
    cbn [fmt_digits]. rewrite Z.mod_small by lia.
    destruct (n <? 10); reflexivity.
  - cbn [fmt_digits]. destruct (Z.ltb_spec n 10) as [Hlt | Hge].
    + exists (String (digit_char n) EmptyString).
      split; [|apply decimal_one_digit; lia].
      rewrite Z.mod_small by lia. reflexivity.
    + rewrite Nat2Z.inj_succ, Z.pow_succ_r in Hn by lia.
      assert (Hq : 0 <= n / 10 < 10 ^ Z.of_nat (S f)).
      { split; [apply Z.div_pos; lia|].
        apply Z.div_lt_upper_bound; lia. }
      destruct (IH (n / 10) (String (digit_char (n mod 10)) acc) Hq)
        as [ds [Hfmt Hdec]].
      exists (ds ++ String (digit_char (n mod 10)) EmptyString)%string.
      split.
      * cbn [fmt_digits] in Hfmt. rewrite Hfmt, append_assoc. reflexivity.
      * pose proof (Z.mod_pos_bound n 10 ltac:(lia)) as Hmod.
        assert (Hq1 : 0 < n / 10).
        { apply Z.div_str_pos. lia. }
        replace n with (n / 10 * 10 + n mod 10) at 2
          by (rewrite (Z.div_mod n 10) at 3 by lia; ring).
        apply decimal_snoc; [exact Hq1 | lia | exact Hdec].
Qed.

Lemma formatInt_decimal (n : Z) :
  0 <= n <= GoInt.max_int -> decimal (formatInt n) n.
Proof.
  intros Hn. unfold formatInt.
  destruct (Z.ltb_spec n 0) as [Hneg|_]; [lia|].
  destruct (fmt_digits_decimal 19 n EmptyString) as [ds [Hfmt Hdec]].
  { split; [lia|]. apply Z.le_lt_trans with GoInt.max_int; [lia|].
    apply Z.ltb_lt. vm_compute. reflexivity. }
  rewrite Hfmt, append_empty_r. exact Hdec.
Qed.

Lemma Atoi_decimal (ds : string) (n : Z) :
  decimal ds n -> 0 <= n <= GoInt.max_int -> Atoi ds = Ok n.
Proof.
  intros (Hall & Hval & Hhead) Hn.
  assert (Hv : digits_value ds 0 = Some n).
  { specialize (Hval 0 EmptyString). rewrite append_empty_r in Hval.
    rewrite Hval. cbn [digits_value]. reflexivity. }
  assert (Hr : GoInt.in_rangeb n = true).
  { apply in_rangeb_spec. unfold GoInt.in_range, GoInt.min_int in *.
    unfold GoInt.max_int in *. lia. }
  destruct Hhead as [[_ ->] | [_ (c & r & -> & Hc)]].
  - unfold Atoi. cbn [Ascii.eqb Bool.eqb].
    cbn in Hv |- *. injection Hv as <-. reflexivity.
  - pose proof (is_digit19_digit c Hc) as Hd.
    unfold Atoi.
    assert (Ascii.eqb c "-" = false) as ->.
    { destruct (Ascii.eqb_spec c "-"%char) as [->|]; [discriminate|reflexivity]. }
    assert (Ascii.eqb c "+" = false) as ->.
    { destruct (Ascii.eqb_spec c "+"%char) as [->|]; [discriminate|reflexivity]. }
    rewrite Hv, Hr. reflexivity.
Qed.

(** ** Matching the semantic-version pattern *)

Lemma span_digits_append (ds rest : string) :
  all_chars is_digit ds = true -> starts_nondigit rest = true ->
  span is_digit (ds ++ rest) = (ds, rest).
Proof.
  intros Hall Hrest. induction ds as [|c ds IH].
  - destruct rest as [|c rest]; [reflexivity|].
    simpl in *. apply negb_true_iff in Hrest. rewrite Hrest. reflexivity.
  - simpl in *. apply andb_true_iff in Hall. destruct Hall as [Hc Hall].
    rewrite Hc, (IH Hall). reflexivity.
Qed.

Lemma match_number_decimal (ds rest : string) (n : Z) :
  decimal ds n -> starts_nondigit rest = true ->
  match_number (ds ++ rest) = Some (ds, rest).
Proof.
  intros (Hall & _ & Hhead) Hrest.
  destruct Hhead as [[_ ->] | [_ (c & r & -> & Hc)]]; [reflexivity|].
  cbn [append match_number].
  rewrite (is_digit19_not_zero c Hc), Hc.
  simpl in Hall. apply andb_true_iff in Hall. destruct Hall as [_ Hall].
  rewrite (span_digits_append r rest Hall Hrest). reflexivity.
Qed.

Lemma match_number_nondigit (c : ascii) (r : string) :
  is_digit c = false -> match_number (String c r) = None.
Proof.
  intros Hc. cbn [match_number].
  destruct (Ascii.eqb_spec c "0"%char) as [->|_]; [discriminate|].
  destruct (is_digit19 c) eqn:H19; [|reflexivity].
  apply is_digit19_digit in H19. congruence.
Qed.

Lemma match_tail_starts (suffix : string) (groups : string * string) :
  match_tail suffix = Some groups -> starts_nondigit suffix = true.
Proof.
  destruct suffix as [|c r]; [reflexivity|]. cbn [match_tail starts_nondigit].
  destruct (Ascii.eqb_spec c "-"%char) as [->|_]; [reflexivity|].
  destruct (Ascii.eqb_spec c "+"%char) as [->|_]; [reflexivity|discriminate].
Qed.

Lemma SemverRegex_here_version (dM dm dp suffix pre build : string)
  (M m p : Z) :
  decimal dM M -> decimal dm m -> decimal dp p ->
  match_tail suffix = Some (pre, build) ->
  SemverRegex_here (dM ++ "." ++ dm ++ "." ++ dp ++ suffix)
  = Some [(dM ++ "." ++ dm ++ "." ++ dp ++ suffix)%string;
          dM; dm; dp; pre; build].
Proof.
  intros HM Hm Hp Htail. unfold SemverRegex_here.
  erewrite match_number_decimal; [|exact HM|reflexivity].
  cbn [append expect Ascii.eqb Bool.eqb].
  erewrite match_number_decimal; [|exact Hm|reflexivity].
  cbn [append expect Ascii.eqb Bool.eqb].
  rewrite (match_number_decimal dp suffix p Hp (match_tail_starts _ _ Htail)).
  rewrite Htail. reflexivity.
Qed.

Lemma SemverRegex_Find_here (s : string) (m : list string) :
  SemverRegex_here s = Some m -> SemverRegex_FindStringSubmatch s = m.
Proof.
  intros E. destruct s; cbn [SemverRegex_FindStringSubmatch]; rewrite E;
    reflexivity.
Qed.

Lemma SemverRegex_Find_skip (c : ascii) (s : string) :
  SemverRegex_here (String c s) = None ->
  SemverRegex_FindStringSubmatch (String c s)
  = SemverRegex_FindStringSubmatch s.
Proof.
  intros E. cbn [SemverRegex_FindStringSubmatch]. rewrite E. reflexivity.
Qed.

Lemma SemverRegex_here_nondigit (c : ascii) (s : string) :
  is_digit c = false -> SemverRegex_here (String c s) = None.
Proof.
  intros Hc. unfold SemverRegex_here.
  rewrite (match_number_nondigit c s Hc). reflexivity.
Qed.

Lemma SemverRegex_here_groups (s : string) (m : list string) :
  SemverRegex_here s = Some m ->
  exists g1 g2 g3 g4 g5 : string, m = [s; g1; g2; g3; g4; g5].
Proof.
  unfold SemverRegex_here.
  destruct (match_number s) as [[g1 r1]|]; [|discriminate].
  destruct (expect "." r1) as [r2|]; [|discriminate].
  destruct (match_number r2) as [[g2 r3]|]; [|discriminate].
  destruct (expect "." r3) as [r4|]; [|discriminate].
  destruct (match_number r4) as [[g3 r5]|]; [|discriminate].
  destruct (match_tail r5) as [[g4 g5]|]; [|discriminate].
  intros E. injection E as <-. exists g1, g2, g3, g4, g5. reflexivity.
Qed.

(** The search skips a prefix without digit: no match begins in it. *)
Lemma SemverRegex_Find_prefix (s t : string) (m : list string) :
  no_digit s = true -> SemverRegex_here t = Some m ->
  SemverRegex_FindStringSubmatch (s ++ t) = m.
Proof.
  intros Hs Ht. induction s as [|c s IH].
  - apply SemverRegex_Find_here. exact Ht.
  - unfold no_digit in Hs. simpl in Hs. apply andb_true_iff in Hs.
    destruct Hs as [Hc Hs]. apply negb_true_iff in Hc.
    cbn [append]. rewrite SemverRegex_Find_skip
      by (apply SemverRegex_here_nondigit; exact Hc).
    apply IH. exact Hs.
Qed.

(** More generally, the search skips a prefix in which no match begins. *)
Lemma SemverRegex_Find_no_earlier (s t : string) (m : list string) :
  (forall (s1 : string) (c : ascii) (s2 : string),
      s = (s1 ++ String c s2)%string ->
      SemverRegex_here (String c s2 ++ t) = None) ->
  SemverRegex_here t = Some m ->
  SemverRegex_FindStringSubmatch (s ++ t) = m.
Proof.
  intros Hs Ht. induction s as [|c s IH].
  - apply SemverRegex_Find_here. exact Ht.
  - cbn [append]. rewrite SemverRegex_Find_skip
      by (apply (Hs EmptyString c s); reflexivity).
    apply IH. intros s1 c' s2 E.
    apply (Hs (String c s1) c' s2). simpl. rewrite E. reflexivity.
Qed.

(** Whatever the prefix, a text that ends with a match passes the filter. *)
Lemma SemverRegex_MatchString_suffix (s t : string) (m : list string) :
  SemverRegex_here t = Some m -> SemverRegex_MatchString (s ++ t) = true.
Proof.
  intros Ht. unfold SemverRegex_MatchString. induction s as [|c s IH].
  - cbn [append]. rewrite (SemverRegex_Find_here _ _ Ht).
    destruct (SemverRegex_here_groups _ _ Ht) as (g1 & g2 & g3 & g4 & g5 & ->).
    reflexivity.
  - cbn [append].
    destruct (SemverRegex_here (String c (s ++ t))) as [m'|] eqn:Hhere.
    + rewrite (SemverRegex_Find_here _ _ Hhere).
      destruct (SemverRegex_here_groups _ _ Hhere)
        as (g1 & g2 & g3 & g4 & g5 & ->).
      reflexivity.
    + rewrite SemverRegex_Find_skip by exact Hhere. exact IH.
Qed.

Section Parsing.

Context `{Validator}.

Lemma NewSemver_no_metadata (major minor patch : Z) :
  0 <= major -> 0 <= minor -> 0 <= patch ->
  NewSemver major minor patch "" = Ok (mkSemver major minor patch "").
Proof.
  intros HM Hm Hp. unfold NewSemver, validate_Semver.
  cbn [Major Minor Patch BuildMetadata].
  destruct (Z.leb_spec 0 major); [|lia].
  destruct (Z.leb_spec 0 minor); [|lia].
  destruct (Z.leb_spec 0 patch); [|lia].
  reflexivity.
Qed.

Lemma NewSemverFromGitTag_groups (tag : Tag) (whole dM dm dp pre build : string)
  (M m p : Z) :
  SemverRegex_FindStringSubmatch (Tag_Name tag)
  = [whole; dM; dm; dp; pre; build] ->
  decimal dM M -> decimal dm m -> decimal dp p ->
  0 <= M <= GoInt.max_int -> 0 <= m <= GoInt.max_int ->
  0 <= p <= GoInt.max_int ->
  NewSemverFromGitTag tag = Ok (mkSemver M m p "").
Proof.
  intros Hfind HdM Hdm Hdp HM Hm Hp.
  unfold NewSemverFromGitTag. rewrite Hfind.
  cbn [List.length Nat.ltb Nat.leb nth].
  rewrite (Atoi_decimal dM M HdM HM), (Atoi_decimal dm m Hdm Hm),
    (Atoi_decimal dp p Hdp Hp).
  cbn [wrapErr bind].
  rewrite NewSemver_no_metadata by lia. reflexivity.
Qed.

(** A tag named by a prefix without digit, a version and a well-formed
    suffix parses to the version. *)
Lemma NewSemverFromGitTag_prefixed (s suffix hash : string) (when : Z)
  (v : Semver) (groups : string * string) :
  no_digit s = true ->
  match_tail suffix = Some groups ->
  0 <= Major v <= GoInt.max_int ->
  0 <= Minor v <= GoInt.max_int ->
  0 <= Patch v <= GoInt.max_int ->
  NewSemverFromGitTag (mkTag hash (s ++ NormalVersion v ++ suffix) when)
  = Ok (mkSemver (Major v) (Minor v) (Patch v) "").
Proof.
  intros Hs Htail HM Hm Hp. destruct groups as [pre build].
  pose proof (formatInt_decimal _ HM) as HdM.
  pose proof (formatInt_decimal _ Hm) as Hdm.
  pose proof (formatInt_decimal _ Hp) as Hdp.
  eapply NewSemverFromGitTag_groups; eauto.
  cbn [Tag_Name]. apply SemverRegex_Find_prefix; [exact Hs|].
  unfold NormalVersion. rewrite !append_assoc.
  apply (SemverRegex_here_version _ _ _ _ _ _ _ _ _ HdM Hdm Hdp Htail).
Qed.

Lemma NewSemverFromGitTag_no_earlier (s suffix hash : string) (when : Z)
  (v : Semver) (groups : string * string) :
  (forall (s1 : string) (c : ascii) (s2 : string),
      s = (s1 ++ String c s2)%string ->
      SemverRegex_here (String c s2 ++ NormalVersion v ++ suffix) = None) ->
  match_tail suffix = Some groups ->
  0 <= Major v <= GoInt.max_int ->
  0 <= Minor v <= GoInt.max_int ->
  0 <= Patch v <= GoInt.max_int ->
  NewSemverFromGitTag (mkTag hash (s ++ NormalVersion v ++ suffix) when)
  = Ok (mkSemver (Major v) (Minor v) (Patch v) "").
Proof.
  intros Hs Htail HM Hm Hp. destruct groups as [pre build].
  pose proof (formatInt_decimal _ HM) as HdM.
  pose proof (formatInt_decimal _ Hm) as Hdm.
  pose proof (formatInt_decimal _ Hp) as Hdp.
  eapply NewSemverFromGitTag_groups; eauto.
  cbn [Tag_Name]. apply SemverRegex_Find_no_earlier; [exact Hs|].
  unfold NormalVersion. rewrite !append_assoc.
  apply (SemverRegex_here_version _ _ _ _ _ _ _ _ _ HdM Hdm Hdp Htail).
Qed.

Lemma NewSemverFromGitTag_metadata (tag : Tag) (v : Semver) :
  NewSemverFromGitTag tag = Ok v -> BuildMetadata v = "".
Proof.
  unfold NewSemverFromGitTag.
  destruct (length (SemverRegex_FindStringSubmatch (Tag_Name tag)) <? 4)%nat;
    [discriminate|].
  destruct (Atoi (nth 1 (SemverRegex_FindStringSubmatch (Tag_Name tag)) ""))
    as [M| |]; try discriminate.
  destruct (Atoi (nth 2 (SemverRegex_FindStringSubmatch (Tag_Name tag)) ""))
    as [m| |]; try discriminate.
  destruct (Atoi (nth 3 (SemverRegex_FindStringSubmatch (Tag_Name tag)) ""))
    as [p| |]; try discriminate.
  cbn [wrapErr bind]. unfold NewSemver.
  destruct (validate_Semver (mkSemver M m p "")); [|discriminate].
  intros E. injection E as <-. reflexivity.
Qed.

End Parsing.

(** C6. For every version with components between 0 and the largest [int]
    and no build metadata, parsing a tag named by the formatted version
    gives the version back. *)
Theorem parse_format_roundtrip `{Validator} :
  forall (v : Semver) (hash : string) (when : Z),
    0 <= Major v <= GoInt.max_int ->
    0 <= Minor v <= GoInt.max_int ->
    0 <= Patch v <= GoInt.max_int ->
    BuildMetadata v = "" ->
    NewSemverFromGitTag (mkTag hash (String_ v) when) = Ok v.
Proof.
  intros v hash when HM Hm Hp Hmeta.
  pose proof (NewSemverFromGitTag_prefixed "" "" hash when v ("", "")
                eq_refl eq_refl HM Hm Hp) as Hparse.
  cbn [append] in Hparse. rewrite append_empty_r in Hparse.
  unfold String_. rewrite Hmeta. cbn [String.eqb negb].
  rewrite Hparse. destruct v as [M m p meta]. simpl in Hmeta. subst meta.
  reflexivity.
Qed.

Lemma parse_format_roundtrip_witness :
  String_ (mkSemver 1 20 305 "") = "1.20.305"
  /\ forall V : Validator,
       @NewSemverFromGitTag V
         (mkTag sample_hash (String_ (mkSemver 1 20 305 "")) 0)
       = Ok (mkSemver 1 20 305 "").
Proof.
  split; [reflexivity|]. intros V.
  apply (@parse_format_roundtrip V (mkSemver 1 20 305 "")).
  - split; apply Z.leb_le; vm_compute; reflexivity.
  - split; apply Z.leb_le; vm_compute; reflexivity.
  - split; apply Z.leb_le; vm_compute; reflexivity.
  - reflexivity.
Defined.

(** C10, as the program has it.  The pattern is anchored at the end of
    the tag name only.  Whatever the prefix, a name that ends with a version
    (components between 0 and the largest [int]) and a well-formed
    pre-release and build suffix passes the tag filter; when no match of the
    pattern begins inside the prefix, and in particular when the prefix
    holds no decimal digit, the tag parses to the version's triple, the
    suffix being dropped; and every parsed Semver has empty build
    metadata. *)
Theorem prefixed_tag_parses `{Validator} :
  forall (s suffix hash : string) (when : Z) (v : Semver)
         (groups : string * string),
    match_tail suffix = Some groups ->
    0 <= Major v <= GoInt.max_int ->
    0 <= Minor v <= GoInt.max_int ->
    0 <= Patch v <= GoInt.max_int ->
    SemverRegex_MatchString (s ++ NormalVersion v ++ suffix) = true
    /\ ((forall (s1 : string) (c : ascii) (s2 : string),
            s = (s1 ++ String c s2)%string ->
            SemverRegex_here (String c s2 ++ NormalVersion v ++ suffix)
            = None) ->
        NewSemverFromGitTag (mkTag hash (s ++ NormalVersion v ++ suffix) when)
        = Ok (mkSemver (Major v) (Minor v) (Patch v) ""))
    /\ (no_digit s = true ->
        NewSemverFromGitTag (mkTag hash (s ++ NormalVersion v ++ suffix) when)
        = Ok (mkSemver (Major v) (Minor v) (Patch v) ""))
    /\ (forall (tag : Tag) (parsed : Semver),
          NewSemverFromGitTag tag = Ok parsed -> BuildMetadata parsed = "").
Proof.
  intros s suffix hash when v groups Htail HM Hm Hp.
  split; [|split; [|split]].
  - destruct groups as [pre build].
    apply (SemverRegex_MatchString_suffix s _
             [(NormalVersion v ++ suffix)%string; formatInt (Major v);
              formatInt (Minor v); formatInt (Patch v); pre; build]).
    unfold NormalVersion. rewrite !append_assoc.
    apply (SemverRegex_here_version _ _ _ _ _ _ _ _ _
             (formatInt_decimal _ HM) (formatInt_decimal _ Hm)
             (formatInt_decimal _ Hp) Htail).
  - intros Hs.
    apply (NewSemverFromGitTag_no_earlier s suffix hash when v groups);
      assumption.
  - intros Hs. apply (NewSemverFromGitTag_prefixed s suffix hash when v groups);
      assumption.
  - apply NewSemverFromGitTag_metadata.
Qed.

Lemma prefixed_tag_parses_witness :
  (("release/" ++ NormalVersion (mkSemver 1 2 3 "") ++ "-rc.1+build.5")%string
   = "release/1.2.3-rc.1+build.5")
  /\ SemverRegex_MatchString "release/1.2.3-rc.1+build.5" = true
  /\ no_digit "release/" = true
  /\ forall V : Validator,
       @NewSemverFromGitTag V
         (mkTag sample_hash "release/1.2.3-rc.1+build.5" 0)
       = Ok (mkSemver 1 2 3 "").
Proof.
  split; [reflexivity|]. split; [reflexivity|]. split; [reflexivity|].
  intros V.
  destruct (@prefixed_tag_parses V "release/" "-rc.1+build.5"
              sample_hash 0 (mkSemver 1 2 3 "") ("rc.1", "build.5") eq_refl)
    as [_ [_ [Hparse _]]].
  - split; apply Z.leb_le; vm_compute; reflexivity.
  - split; apply Z.leb_le; vm_compute; reflexivity.
  - split; apply Z.leb_le; vm_compute; reflexivity.
  - exact (Hparse eq_refl).
Defined.

(** C10, as it is stated, fails for a prefix that ends with a digit: the
    name made of the prefix 1 and the version text 2.3.4 passes the filter
    and parses to 12.3.4.  It also fails for a version text whose number
    does not fit an [int]: the name passes the filter and does not parse. *)
Lemma digit_prefix_changes_triple :
  NormalVersion (mkSemver 2 3 4 "") = "2.3.4"
  /\ SemverRegex_MatchString ("1" ++ "2.3.4") = true
  /\ (forall V : Validator,
        @NewSemverFromGitTag V (mkTag sample_hash ("1" ++ "2.3.4") 0)
        = Ok (mkSemver 12 3 4 ""))
  /\ mkSemver 12 3 4 "" <> mkSemver 2 3 4 ""
  /\ SemverRegex_MatchString ("v" ++ "9223372036854775808.0.0") = true
  /\ (forall V : Validator,
        @NewSemverFromGitTag V
          (mkTag sample_hash ("v" ++ "9223372036854775808.0.0") 0)
        = Err "NewSemverFromGitTag: failed to convert major component").
Proof.
  split; [reflexivity|]. split; [reflexivity|].
  split; [intros V; reflexivity|]. split; [discriminate|].
  split; [vm_compute; reflexivity|]. intros V. vm_compute. reflexivity.
Qed.

(** ** The tag resolver *)

Lemma Precedence_gt_trans (a b c : Semver) :
  Precedence a b = 1 -> Precedence b c = 1 -> Precedence a c = 1.
Proof. rewrite !Precedence_gt. apply lex_gt_trans. Qed.

Lemma Precedence_gt_not_gt (a b c : Semver) :
  Precedence a b = 1 -> Precedence c b <> 1 -> Precedence a c = 1.
Proof.
  rewrite !Precedence_gt. destruct a, b, c. unfold triple, lex_gt. simpl. lia.
Qed.

Lemma Precedence_refl (a : Semver) : Precedence a a <> 1.
Proof. rewrite Precedence_gt. apply lex_gt_irrefl. Qed.

(** The fold of [keep_greater] retains the first of the greatest tags:
    every tag before it is strictly smaller, no tag after it is greater. *)
Lemma fold_keep_greater (ver : Tag -> Semver) (tags : list Tag) :
  forall best : Tag,
    exists l1 l2 : list Tag,
      best :: tags = l1 ++ fold_left (keep_greater ver) tags best :: l2
      /\ (forall x : Tag,
            In x l1 ->
            Precedence (ver (fold_left (keep_greater ver) tags best)) (ver x)
            = 1)
      /\ (forall x : Tag,
            In x l2 ->
            Precedence (ver x) (ver (fold_left (keep_greater ver) tags best))
            <> 1).
Proof.
  induction tags as [|t tl IH]; intros best.
  - exists [], []. simpl. repeat split; intros x [].
  - cbn [fold_left]. unfold keep_greater at 2 4 6.
    destruct (Z.eqb_spec (Precedence (ver t) (ver best)) 1) as [Hgt | Hle].
    + destruct (IH t) as (l1 & l2 & Hdec & Hbefore & Hafter).
      set (res := fold_left (keep_greater ver) tl t) in *.
      exists (best :: l1), l2. split; [simpl; rewrite Hdec; reflexivity|].
      split; [|exact Hafter].
      intros x [<- | Hx]; [|apply Hbefore; exact Hx].
      destruct l1 as [|y l1].
      * simpl in Hdec. injection Hdec as Hres _. rewrite <- Hres. exact Hgt.
      * simpl in Hdec. injection Hdec as Hy _. subst y.
        apply (Precedence_gt_trans _ (ver t)); [|exact Hgt].
        apply Hbefore. left. reflexivity.
    + destruct (IH best) as (l1 & l2 & Hdec & Hbefore & Hafter).
      set (res := fold_left (keep_greater ver) tl best) in *.
      destruct l1 as [|y l1].
      * simpl in Hdec. injection Hdec as Hres Htl.
        exists [], (t :: l2). split; [simpl; rewrite <- Hres, Htl; reflexivity|].
        split; [intros x []|].
        intros x [<- | Hx]; [rewrite <- Hres; exact Hle | apply Hafter; exact Hx].
      * simpl in Hdec. injection Hdec as Hy Htl. subst y.
        exists (best :: t :: l1), l2.
        split; [simpl; rewrite Htl; reflexivity|].
        split; [|exact Hafter].
        assert (Hbest : Precedence (ver res) (ver best) = 1)
          by (apply Hbefore; left; reflexivity).
        intros x [<- | [<- | Hx]].
        -- exact Hbest.
        -- apply (Precedence_gt_not_gt _ (ver best)); assumption.
        -- apply Hbefore. right. exact Hx.
Qed.

Section Resolver.

Context `{Validator}.

Lemma NewSemverFromGitTag_result (tag : Tag) :
  (exists v : Semver, NewSemverFromGitTag tag = Ok v)
  \/ (exists msg : string, NewSemverFromGitTag tag = Err msg).
Proof.
  unfold NewSemverFromGitTag.
  destruct (length (SemverRegex_FindStringSubmatch (Tag_Name tag)) <? 4)%nat;
    [right; eauto|].
  assert (HA : forall s : string,
             (exists z : Z, Atoi s = Ok z) \/ (exists msg, Atoi s = Err msg)).
  { intros s. unfold Atoi. destruct s as [|c r]; [right; eauto|].
    destruct (if Ascii.eqb c "-" then (true, r)
              else if Ascii.eqb c "+" then (false, r)
                   else (false, String c r)) as [neg body].
    destruct body as [|b body]; [right; eauto|].
    destruct (digits_value (String b body) 0) as [n|]; [|right; eauto].
    destruct (GoInt.in_rangeb (if neg then - n else n)); eauto. }
  destruct (HA (nth 1 (SemverRegex_FindStringSubmatch (Tag_Name tag)) ""))
    as [[M ->] | [msg ->]]; [|right; simpl; eauto].
  destruct (HA (nth 2 (SemverRegex_FindStringSubmatch (Tag_Name tag)) ""))
    as [[m ->] | [msg ->]]; [|right; simpl; eauto].
  destruct (HA (nth 3 (SemverRegex_FindStringSubmatch (Tag_Name tag)) ""))
    as [[p ->] | [msg ->]]; [|right; simpl; eauto].
  cbn [wrapErr bind]. unfold NewSemver.
  destruct (validate_Semver (mkSemver M m p "")); simpl; eauto.
Qed.

(** With every tag parsed, the loop is the fold of [keep_greater]. *)
Lemma latestLoop_fold (ver : Tag -> Semver) (tags : list Tag) :
  forall (i : nat) (latest : Tag),
    (forall t : Tag, In t (latest :: tags) -> NewSemverFromGitTag t = Ok (ver t)) ->
    latestLoop (S i) tags (Some latest)
    = Ok (Some (fold_left (keep_greater ver) tags latest)).
Proof.
  induction tags as [|t tl IH]; intros i latest Hparse; [reflexivity|].
  cbn [latestLoop fold_left].
  rewrite (Hparse t (or_intror (or_introl eq_refl))).
  rewrite (Hparse latest (or_introl eq_refl)).
  cbn [wrapErr bind Nat.eqb]. unfold keep_greater at 2.
  destruct (Precedence (ver t) (ver latest) =? 1); apply IH;
    intros x [<- | Hx]; apply Hparse; simpl; auto.
Qed.

Lemma latestLoop_first (t0 : Tag) (v : Semver) (tags : list Tag) :
  NewSemverFromGitTag t0 = Ok v ->
  latestLoop 0 (t0 :: tags) None = latestLoop 1 tags (Some t0).
Proof. intros Hv. cbn [latestLoop]. rewrite Hv. reflexivity. Qed.

(** A tag that does not parse makes the loop fail. *)
Lemma latestLoop_error (tags : list Tag) :
  forall (i : nat) (latest : option Tag),
    ((i = 0%nat /\ latest = None)
     \/ (i <> 0%nat
         /\ exists (l : Tag) (v : Semver),
              latest = Some l /\ NewSemverFromGitTag l = Ok v)) ->
    (exists t : Tag,
       In t tags /\ forall v : Semver, NewSemverFromGitTag t <> Ok v) ->
    latestLoop i tags latest = Err tag_error.
Proof.
  induction tags as [|t tl IH]; intros i latest Hstate [bad [Hin Hbad]].
  - destruct Hin.
  - cbn [latestLoop].
    destruct (NewSemverFromGitTag_result t) as [[v Hv] | [msg Hmsg]].
    + assert (Hrest : exists t' : Tag,
                 In t' tl /\ forall v' : Semver, NewSemverFromGitTag t' <> Ok v').
      { destruct Hin as [<- | Hin]; [exfalso; exact (Hbad v Hv)|].
        exists bad. split; assumption. }
      rewrite Hv. cbn [wrapErr bind].
      destruct Hstate as [[-> ->] | [Hi (l & vl & -> & Hl)]].
      * cbn [Nat.eqb]. apply IH; [|exact Hrest].
        right. split; [discriminate|]. exists t, v. auto.
      * destruct (Nat.eqb_spec i 0) as [E|_]; [contradiction|].
        rewrite Hl. cbn [wrapErr bind].
        destruct (Precedence v vl =? 1); (apply IH; [|exact Hrest]);
          right; (split; [discriminate|]); eauto.
    + rewrite Hmsg. reflexivity.
Qed.

End Resolver.

(** C4, as the program has it.  With two or more tags passing the filter,
    each of which converts to a version, the resolver reduces them pairwise,
    in the order of the list: a candidate replaces the retained tag only
    when its precedence is strictly greater.  So the tag
    returned is the first of the greatest: each tag seen before it is
    strictly smaller, none seen after it is greater, and among tags of equal
    precedence the earlier one is kept.  (A tag whose numbers do not convert
    makes the resolver fail.)  Given the tags v1.0.0, v1.2.0 and v2.0.0, in
    any order, it returns v2.0.0. *)
Theorem latest_tag_is_first_greatest `{Validator} :
  (forall (r : Repository) (tags : list Tag) (t0 t1 : Tag) (rest : list Tag),
      TagObjects r = Ok tags ->
      filter (fun tag => SemverRegex_MatchString (Tag_Name tag)) tags
      = t0 :: t1 :: rest ->
      (forall ver : Tag -> Semver,
          (forall t : Tag,
              In t (t0 :: t1 :: rest) -> NewSemverFromGitTag t = Ok (ver t)) ->
          fetchLatestSemverTag r
          = Ok (fold_left (keep_greater ver) (t1 :: rest) t0,
                latest_line (fold_left (keep_greater ver) (t1 :: rest) t0))
          /\ exists l1 l2 : list Tag,
               t0 :: t1 :: rest
               = l1 ++ fold_left (keep_greater ver) (t1 :: rest) t0 :: l2
               /\ (forall x : Tag,
                     In x l1 ->
                     Precedence
                       (ver (fold_left (keep_greater ver) (t1 :: rest) t0))
                       (ver x) = 1)
               /\ (forall x : Tag,
                     In x l2 ->
                     Precedence (ver x)
                       (ver (fold_left (keep_greater ver) (t1 :: rest) t0))
                     <> 1))
      /\ ((exists t : Tag,
             In t (t0 :: t1 :: rest)
             /\ forall v : Semver, NewSemverFromGitTag t <> Ok v) ->
          fetchLatestSemverTag r = Err tag_error))
  /\ Forall
       (fun tags =>
          fetchLatestSemverTag (repository_of tags)
          = Ok (tag_v2_0_0, ["latest semver tag: v2.0.0"]))
       example_orders.
Proof.
  split.
  - intros r tags t0 t1 rest Htags Hfilter. split.
    + intros ver Hparse. split; [|apply fold_keep_greater].
      unfold fetchLatestSemverTag. rewrite Htags. cbn [bind].
      rewrite Hfilter. cbv beta iota zeta.
      rewrite (latestLoop_first t0 (ver t0) (t1 :: rest)
                 (Hparse t0 (or_introl eq_refl))).
      rewrite (latestLoop_fold ver (t1 :: rest) 0 t0 Hparse).
      reflexivity.
    + intros Hbad.
      unfold fetchLatestSemverTag. rewrite Htags. cbn [bind].
      rewrite Hfilter. cbv beta iota zeta.
      rewrite (latestLoop_error (t0 :: t1 :: rest) 0 None
                 (or_introl (conj eq_refl eq_refl)) Hbad).
      reflexivity.
  - unfold example_orders. repeat constructor.
Qed.

Lemma latest_tag_is_first_greatest_witness :
  filter (fun tag => SemverRegex_MatchString (Tag_Name tag))
    [mkTag "ddddddd" "nightly" 50; tag_v1_2_0; tag_release_1_2_0; tag_v1_0_0]
  = [tag_v1_2_0; tag_release_1_2_0; tag_v1_0_0]
  /\ forall V : Validator,
       @fetchLatestSemverTag V
         (repository_of
            [mkTag "ddddddd" "nightly" 50; tag_v1_2_0; tag_release_1_2_0;
             tag_v1_0_0])
       = Ok (tag_v1_2_0, latest_line tag_v1_2_0).
Proof.
  split; [reflexivity|]. intros V.
  destruct (proj1 (@latest_tag_is_first_greatest V)
              (repository_of
                 [mkTag "ddddddd" "nightly" 50; tag_v1_2_0; tag_release_1_2_0;
                  tag_v1_0_0])
              [mkTag "ddddddd" "nightly" 50; tag_v1_2_0; tag_release_1_2_0;
               tag_v1_0_0]
              tag_v1_2_0 tag_release_1_2_0 [tag_v1_0_0]
              eq_refl eq_refl) as [Hfold _].
  destruct (Hfold example_version) as [Hlatest _].
  - intros t [<- | [<- | [<- | []]]]; reflexivity.
  - exact Hlatest.
Defined.

(** C4, as it is stated, fails for a candidate whose number does not fit
    an [int]: the tags v1.0.0, v9223372036854775808.0.0 and v2.0.0 all pass
    the filter, and the resolver returns an error instead of v2.0.0. *)
Lemma unconvertible_candidate_fails_resolver :
  filter (fun tag => SemverRegex_MatchString (Tag_Name tag))
    [tag_v1_0_0; tag_too_big; tag_v2_0_0]
  = [tag_v1_0_0; tag_too_big; tag_v2_0_0]
  /\ forall V : Validator,
       @fetchLatestSemverTag V
         (repository_of [tag_v1_0_0; tag_too_big; tag_v2_0_0])
       = Err tag_error.
Proof.
  split; [vm_compute; reflexivity|]. intros V. vm_compute. reflexivity.
Qed.

(** ** The whole computation *)

(** Once the latest tag is resolved and parsed and the log is read,
    [ComputeNewSemverNumber] is the history loop on the reversed log,
    started from the tag's version with the flag down. *)
Lemma ComputeNewSemverNumber_runs_loop `{Validator} (c : CommitAnalyzer)
  (r : Repository) (tag : Tag) (lines : list string) (version : Semver)
  (commitHistory : list Commit) :
  fetchLatestSemverTag r = Ok (tag, lines) ->
  NewSemverFromGitTag tag = Ok version ->
  Log r (if negb (IsZero version) then Some (Tag_When tag) else None)
  = Ok commitHistory ->
  ComputeNewSemverNumber c r
  = historyLoop (slice_elems (Rules (releaseRules c))) (rev commitHistory)
      (mkRun version false lines).
Proof.
  intros Hfetch Hparse Hlog. unfold ComputeNewSemverNumber.
  rewrite Hfetch. cbn [wrapErr bind]. rewrite Hparse. cbn [wrapErr bind].
  rewrite Hlog. reflexivity.
Qed.

Example ComputeNewSemverNumber_example `{Validator} :
  exists lines : list string,
    ComputeNewSemverNumber example_analyzer example_repository
    = Ok (mkRun (mkSemver 1 1 0 "") true lines).
Proof. eexists. vm_compute. reflexivity. Qed.

(** Without a commit after the latest tag the version is returned as it
    is, with the flag down. *)
Example ComputeNewSemverNumber_no_commit `{Validator} :
  ComputeNewSemverNumber example_analyzer (repository_of [tag_v1_2_0])
  = Ok (mkRun (mkSemver 1 2 0 "") false []).
Proof. vm_compute. reflexivity. Qed.

(** Without any tag the computation starts from 0.0.0 and reads the
    whole log. *)
Example ComputeNewSemverNumber_no_tag `{Validator} :
  exists lines : list string,
    ComputeNewSemverNumber example_analyzer
      (mkRepository (Ok [mkTag "ddddddd" "nightly" 50]) (Ok sample_hash)
         (fun since =>
            match since with
            | Some _ => Err "unexpected"
            | None => Ok [commit_of "feat: first"]
            end))
    = Ok (mkRun (mkSemver 0 1 0 "") true lines).
Proof. eexists. vm_compute. reflexivity. Qed.

Example SemverRegex_agrees :
  Backtracking.agree (Backtracking.find Backtracking.SemverRegex 5)
    SemverRegex_FindStringSubmatch Backtracking.tag_names = true.
Proof. vm_compute. reflexivity. Qed.

Example conventionalCommitRegex_agrees :
  Backtracking.agree
    (fun s =>
       match Backtracking.match_here Backtracking.conventionalCommitRegex 5 s
       with
       | Some m => m
       | None => []
       end)
    conventionalCommitRegex_FindStringSubmatch Backtracking.messages = true.
Proof. vm_compute. reflexivity. Qed.

(** * Further properties of the code *)

(** ** The bumps (semver.go) *)

Lemma int_bounds : GoInt.min_int < 0 < GoInt.max_int.
Proof. split; apply Z.ltb_lt; vm_compute; reflexivity. Qed.

Lemma incr_nonneg (z : Z) : 0 <= z < GoInt.max_int -> GoInt.incr z = z + 1.
Proof. intros Hz. pose proof int_bounds. apply incr_small. lia. Qed.

Lemma incr_cases (z : Z) :
  GoInt.in_range z ->
  (z < GoInt.max_int /\ GoInt.incr z = z + 1)
  \/ (z = GoInt.max_int /\ GoInt.incr z = GoInt.min_int).
Proof.
  intros Hz. destruct (Z.eq_dec z GoInt.max_int) as [-> | Hne].
  - right. split; [reflexivity | apply incr_max].
  - left. unfold GoInt.in_range in Hz. rewrite incr_small by lia. lia.
Qed.

(** The bumps cascade and absorb one another: a minor bump resets the
    patch, a major bump resets minor and patch, and a bump made before a
    higher one leaves no trace; the build metadata is kept.  A bump raises
    the precedence exactly when the component it increments is below the
    largest [int]. *)
Theorem bumps_cascade :
  forall v : Semver,
    BumpMajor (BumpMinor v) = BumpMajor v
    /\ BumpMajor (BumpPatch v) = BumpMajor v
    /\ BumpMinor (BumpPatch v) = BumpMinor v
    /\ triple (BumpMinor v) = (Major v, GoInt.incr (Minor v), 0)
    /\ triple (BumpMajor v) = (GoInt.incr (Major v), 0, 0)
    /\ triple (BumpPatch v) = (Major v, Minor v, GoInt.incr (Patch v))
    /\ BuildMetadata (BumpPatch v) = BuildMetadata v
    /\ BuildMetadata (BumpMinor v) = BuildMetadata v
    /\ BuildMetadata (BumpMajor v) = BuildMetadata v
    /\ (GoInt.in_range (Patch v) ->
        (Precedence (BumpPatch v) v = 1 <-> Patch v < GoInt.max_int))
    /\ (GoInt.in_range (Minor v) ->
        (Precedence (BumpMinor v) v = 1 <-> Minor v < GoInt.max_int))
    /\ (GoInt.in_range (Major v) ->
        (Precedence (BumpMajor v) v = 1 <-> Major v < GoInt.max_int)).
Proof.
  intros v. repeat (split; [reflexivity|]).
  pose proof int_bounds as Hb.
  split; [|split]; intros Hr; rewrite Precedence_gt;
    unfold triple, lex_gt;
    cbn [BumpPatch BumpMinor BumpMajor Major Minor Patch];
    destruct (incr_cases _ Hr) as [[Hlt ->] | [Hmax ->]]; lia.
Qed.

(** [IsZero] holds of 0.0.0 only, whatever the metadata; a bumped version
    with non-negative components is never zero. *)
Theorem IsZero_only_zero :
  forall v : Semver,
    (IsZero v = true <-> triple v = (0, 0, 0))
    /\ (0 <= Patch v < GoInt.max_int -> IsZero (BumpPatch v) = false)
    /\ (0 <= Minor v < GoInt.max_int -> IsZero (BumpMinor v) = false)
    /\ (0 <= Major v < GoInt.max_int -> IsZero (BumpMajor v) = false).
Proof.
  intros v. unfold IsZero, triple. split; [|split; [|split]].
  - rewrite !andb_true_iff, !Z.eqb_eq. split.
    + intros [[H1 H2] H3]. f_equal; [f_equal|]; lia.
    + intros E. injection E as H1 H2 H3. lia.
  - intros Hp. cbn [BumpPatch Major Minor Patch].
    rewrite incr_nonneg by exact Hp.
    rewrite !andb_false_iff, !Z.eqb_neq. lia.
  - intros Hm. cbn [BumpMinor Major Minor Patch].
    rewrite incr_nonneg by exact Hm.
    rewrite !andb_false_iff, !Z.eqb_neq. lia.
  - intros HM. cbn [BumpMajor Major Minor Patch].
    rewrite incr_nonneg by exact HM.
    rewrite !andb_false_iff, !Z.eqb_neq. lia.
Qed.

(** ** Building and parsing a version (semver.go) *)

Lemma validate_Semver_spec `{Validator} (v : Semver) :
  validate_Semver v = true
  <-> 0 <= Major v /\ 0 <= Minor v /\ 0 <= Patch v
      /\ (BuildMetadata v = "" \/ alphanumunicode (BuildMetadata v) = true).
Proof.
  unfold validate_Semver. rewrite !andb_true_iff, !Z.leb_le.
  destruct (String.eqb_spec (BuildMetadata v) "") as [E | E].
  - tauto.
  - split.
    + intros [[[HM Hm] Hp] Ha]. auto.
    + intros (HM & Hm & Hp & [Ha | Ha]); [contradiction | auto].
Qed.

Lemma Atoi_in_range (s : string) (z : Z) :
  Atoi s = Ok z -> GoInt.in_range z.
Proof.
  unfold Atoi. destruct s as [|c r]; [discriminate|].
  destruct (if Ascii.eqb c "-" then (true, r)
            else if Ascii.eqb c "+" then (false, r)
                 else (false, String c r)) as [neg body].
  destruct body as [|b body]; [discriminate|].
  destruct (digits_value (String b body) 0) as [n|]; [|discriminate].
  destruct (GoInt.in_rangeb (if neg then - n else n)) eqn:Hr; [|discriminate].
  intros E. injection E as <-. apply in_rangeb_spec. exact Hr.
Qed.

Lemma digit_val_nonneg (c : ascii) : is_digit c = true -> 0 <= digit_val c.
Proof.
  unfold is_digit, in_span, digit_val. rewrite andb_true_iff, !Z.leb_le. lia.
Qed.

Lemma digits_value_nonneg (g : string) :
  forall acc : Z,
    all_chars is_digit g = true -> 0 <= acc ->
    exists n : Z, digits_value g acc = Some n /\ 0 <= n.
Proof.
  induction g as [|c g IH]; intros acc Hall Hacc.
  - exists acc. auto.
  - simpl in Hall. apply andb_true_iff in Hall. destruct Hall as [Hc Hall].
    cbn [digits_value]. rewrite Hc. apply IH; [exact Hall|].
    pose proof (digit_val_nonneg c Hc). lia.
Qed.

(** On a non-empty run of digits [Atoi] gives a non-negative [int], or
    reports that the value is out of range. *)
Lemma Atoi_digits (g : string) :
  all_chars is_digit g = true -> g <> "" ->
  (exists z : Z, Atoi g = Ok z /\ 0 <= z <= GoInt.max_int)
  \/ Atoi g = Err "strconv.Atoi: value out of range".
Proof.
  intros Hall Hne. destruct g as [|c r]; [contradiction|].
  destruct (digits_value_nonneg _ 0 Hall ltac:(lia)) as [n [Hn Hpos]].
  simpl in Hall. apply andb_true_iff in Hall. destruct Hall as [Hc _].
  unfold Atoi.
  assert (Ascii.eqb c "-" = false) as ->.
  { destruct (Ascii.eqb_spec c "-"%char) as [->|]; [discriminate|reflexivity]. }
  assert (Ascii.eqb c "+" = false) as ->.
  { destruct (Ascii.eqb_spec c "+"%char) as [->|]; [discriminate|reflexivity]. }
  rewrite Hn. destruct (GoInt.in_rangeb n) eqn:Hr; [|right; reflexivity].
  left. exists n. split; [reflexivity|].
  apply in_rangeb_spec in Hr. unfold GoInt.in_range in Hr. lia.
Qed.

Lemma span_sound (p : ascii -> bool) (s : string) :
  forall a b : string,
    span p s = (a, b) -> all_chars p a = true /\ s = (a ++ b)%string.
Proof.
  induction s as [|c s IH]; intros a b E.
  - injection E as <- <-. auto.
  - cbn [span] in E. destruct (p c) eqn:Hc.
    + destruct (span p s) as [a' b'] eqn:Hspan. injection E as <- <-.
      destruct (IH a' b' eq_refl) as [Hall Hs].
      simpl. rewrite Hc, Hall, <- Hs. auto.
    + injection E as <- <-. auto.
Qed.

Lemma match_number_sound (s g r : string) :
  match_number s = Some (g, r) ->
  all_chars is_digit g = true /\ g <> "" /\ s = (g ++ r)%string.
Proof.
  unfold match_number. destruct s as [|c s]; [discriminate|].
  destruct (Ascii.eqb_spec c "0"%char) as [-> | _].
  - intros E. injection E as <- <-. repeat split; discriminate.
  - destruct (is_digit19 c) eqn:Hc; [|discriminate].
    destruct (span is_digit s) as [ds r'] eqn:Hspan.
    intros E. injection E as <- <-.
    destruct (span_sound _ _ _ _ Hspan) as [Hall Hs].
    split; [|split; [discriminate|]].
    + simpl. rewrite (is_digit19_digit c Hc), Hall. reflexivity.
    + simpl. rewrite <- Hs. reflexivity.
Qed.

Lemma SemverRegex_here_digits (s : string) (m : list string) :
  SemverRegex_here s = Some m ->
  exists g1 g2 g3 g4 g5 : string,
    m = [s; g1; g2; g3; g4; g5]
    /\ (all_chars is_digit g1 = true /\ g1 <> "")
    /\ (all_chars is_digit g2 = true /\ g2 <> "")
    /\ (all_chars is_digit g3 = true /\ g3 <> "").
Proof.
  unfold SemverRegex_here.
  destruct (match_number s) as [[g1 r1]|] eqn:H1; [|discriminate].
  destruct (expect "." r1) as [r2|]; [|discriminate].
  destruct (match_number r2) as [[g2 r3]|] eqn:H2; [|discriminate].
  destruct (expect "." r3) as [r4|]; [|discriminate].
  destruct (match_number r4) as [[g3 r5]|] eqn:H3; [|discriminate].
  destruct (match_tail r5) as [[g4 g5]|]; [|discriminate].
  intros E. injection E as <-. exists g1, g2, g3, g4, g5.
  apply match_number_sound in H1, H2, H3. tauto.
Qed.

Lemma SemverRegex_Find_cases (s : string) :
  SemverRegex_FindStringSubmatch s = []
  \/ exists (t : string) (m : list string),
       SemverRegex_here t = Some m /\ SemverRegex_FindStringSubmatch s = m.
Proof.
  induction s as [|c s IH].
  - left. reflexivity.
  - destruct (SemverRegex_here (String c s)) as [m|] eqn:Hhere.
    + right. exists (String c s), m. split; [exact Hhere|].
      apply SemverRegex_Find_here. exact Hhere.
    + rewrite SemverRegex_Find_skip by exact Hhere. exact IH.
Qed.

Lemma SemverRegex_MatchString_here (s t : string) (m : list string) :
  SemverRegex_here t = Some m -> SemverRegex_FindStringSubmatch s = m ->
  SemverRegex_MatchString s = true /\ (length m <? 4)%nat = false.
Proof.
  intros Hhere Hfind. unfold SemverRegex_MatchString. rewrite Hfind.
  destruct (SemverRegex_here_groups _ _ Hhere) as (g1 & g2 & g3 & g4 & g5 & ->).
  split; reflexivity.
Qed.

(** A version parsed from a tag has components between 0 and the largest
    [int] and no build metadata, and its tag passes the tag filter. *)
Theorem NewSemverFromGitTag_ok_invariants `{Validator} :
  forall (tag : Tag) (v : Semver),
    NewSemverFromGitTag tag = Ok v ->
    0 <= Major v <= GoInt.max_int
    /\ 0 <= Minor v <= GoInt.max_int
    /\ 0 <= Patch v <= GoInt.max_int
    /\ BuildMetadata v = ""
    /\ SemverRegex_MatchString (Tag_Name tag) = true.
Proof.
  intros tag v. unfold NewSemverFromGitTag, SemverRegex_MatchString.
  destruct (SemverRegex_FindStringSubmatch (Tag_Name tag)) as [|w groups];
    [discriminate|].
  destruct (length (w :: groups) <? 4)%nat; [discriminate|].
  destruct (Atoi (nth 1 (w :: groups) "")) as [M| |] eqn:HM; try discriminate.
  destruct (Atoi (nth 2 (w :: groups) "")) as [m| |] eqn:Hm; try discriminate.
  destruct (Atoi (nth 3 (w :: groups) "")) as [p| |] eqn:Hp; try discriminate.
  cbn [wrapErr bind]. unfold NewSemver.
  destruct (validate_Semver (mkSemver M m p "")) eqn:Hv; [|discriminate].
  intros E. injection E as <-.
  apply validate_Semver_spec in Hv. cbn [Major Minor Patch BuildMetadata] in *.
  apply Atoi_in_range in HM, Hm, Hp. unfold GoInt.in_range in *.
  repeat split; try tauto; lia.
Qed.

Lemma NewSemverFromGitTag_ok_invariants_witness :
  Tag_Name tag_v1_2_0 = "v1.2.0"
  /\ forall V : Validator,
       @NewSemverFromGitTag V tag_v1_2_0 = Ok (mkSemver 1 2 0 "")
       /\ (0 <= 1 <= GoInt.max_int /\ 0 <= 2 <= GoInt.max_int
           /\ 0 <= 0 <= GoInt.max_int
           /\ "" = ""
           /\ SemverRegex_MatchString "v1.2.0" = true).
Proof.
  split; [reflexivity|]. intros V. split; [reflexivity|].
  exact (@NewSemverFromGitTag_ok_invariants V tag_v1_2_0
           (mkSemver 1 2 0 "") eq_refl).
Defined.

(** The parser and the tag filter agree: a tag is refused as not
    convertible exactly when its name does not pass the filter.  A tag that
    passes the filter parses, or fails on a number that does not fit an
    [int]; the validation of the built version never fails, and the parser
    never panics. *)
Theorem NewSemverFromGitTag_failures `{Validator} :
  forall tag : Tag,
    (SemverRegex_MatchString (Tag_Name tag) = false
     <-> NewSemverFromGitTag tag
         = Err "NewSemverFromGitTag: tag cannot be converted to a valid semver")
    /\ (SemverRegex_MatchString (Tag_Name tag) = true ->
        (exists v : Semver, NewSemverFromGitTag tag = Ok v)
        \/ NewSemverFromGitTag tag
           = Err "NewSemverFromGitTag: failed to convert major component"
        \/ NewSemverFromGitTag tag
           = Err "NewSemverFromGitTag: failed to convert minor component"
        \/ NewSemverFromGitTag tag
           = Err "NewSemverFromGitTag: failed to convert patch component")
    /\ NewSemverFromGitTag tag
       <> Err "NewSemverFromGitTag: failed to build SemVer"
    /\ (forall msg : string, NewSemverFromGitTag tag <> Abort msg).
Proof.
  intros tag.
  destruct (SemverRegex_Find_cases (Tag_Name tag)) as [Hnil | (t & m & Hhere & Hfind)].
  - assert (Hres : NewSemverFromGitTag tag
                   = Err "NewSemverFromGitTag: tag cannot be converted to a valid semver")
      by (unfold NewSemverFromGitTag; rewrite Hnil; reflexivity).
    assert (Hmatch : SemverRegex_MatchString (Tag_Name tag) = false)
      by (unfold SemverRegex_MatchString; rewrite Hnil; reflexivity).
    rewrite Hres, Hmatch. repeat split; auto; discriminate.
  - destruct (SemverRegex_MatchString_here _ _ _ Hhere Hfind) as [Hmatch Hlen].
    destruct (SemverRegex_here_digits _ _ Hhere)
      as (g1 & g2 & g3 & g4 & g5 & -> & [Hd1 Hn1] & [Hd2 Hn2] & [Hd3 Hn3]).
    assert (Hcases :
      (exists v : Semver, NewSemverFromGitTag tag = Ok v)
      \/ NewSemverFromGitTag tag
         = Err "NewSemverFromGitTag: failed to convert major component"
      \/ NewSemverFromGitTag tag
         = Err "NewSemverFromGitTag: failed to convert minor component"
      \/ NewSemverFromGitTag tag
         = Err "NewSemverFromGitTag: failed to convert patch component").
    { unfold NewSemverFromGitTag. rewrite Hfind.
      cbn [List.length Nat.ltb Nat.leb nth].
      destruct (Atoi_digits g1 Hd1 Hn1) as [(M & -> & HM) | ->];
        [|right; left; reflexivity].
      destruct (Atoi_digits g2 Hd2 Hn2) as [(mi & -> & Hm) | ->];
        [|right; right; left; reflexivity].
      destruct (Atoi_digits g3 Hd3 Hn3) as [(p & -> & Hp) | ->];
        [|right; right; right; reflexivity].
      cbn [wrapErr bind]. rewrite NewSemver_no_metadata by lia.
      left. eexists. reflexivity. }
    rewrite Hmatch.
    destruct Hcases as [[v Hv] | [Hv | [Hv | Hv]]]; rewrite Hv;
      repeat split; eauto; try discriminate.
Qed.

(** The build metadata is printed and not read back: a version with
    well-formed build identifiers formats to its numbers, a plus sign and
    the metadata, and the tag so named parses to the same numbers without
    metadata. *)
Theorem String_then_parse_drops_metadata `{Validator} :
  forall (v : Semver) (hash : string) (when : Z),
    0 <= Major v <= GoInt.max_int ->
    0 <= Minor v <= GoInt.max_int ->
    0 <= Patch v <= GoInt.max_int ->
    forallb build_ident (split_on "." (BuildMetadata v)) = true ->
    String_ v = (NormalVersion v ++ "+" ++ BuildMetadata v)%string
    /\ NewSemverFromGitTag (mkTag hash (String_ v) when)
       = Ok (with_metadata v "").
Proof.
  intros v hash when HM Hm Hp Hmeta.
  assert (Hne : BuildMetadata v <> "").
  { intros E. rewrite E in Hmeta. discriminate. }
  assert (Hstr : String_ v = (NormalVersion v ++ "+" ++ BuildMetadata v)%string).
  { unfold String_, NormalVersion.
    destruct (String.eqb_spec (BuildMetadata v) ""); [contradiction|].
    cbn [negb]. rewrite !append_assoc. reflexivity. }
  split; [exact Hstr|]. rewrite Hstr.
  apply (NewSemverFromGitTag_prefixed "" ("+" ++ BuildMetadata v) hash when v
           ("", BuildMetadata v)); auto.
  cbn [append match_tail Ascii.eqb Bool.eqb]. rewrite Hmeta. reflexivity.
Qed.

Lemma String_then_parse_drops_metadata_witness :
  forallb build_ident (split_on "." "build7") = true
  /\ forall V : Validator,
       String_ (mkSemver 1 2 3 "build7") = "1.2.3+build7"
       /\ @NewSemverFromGitTag V
            (mkTag sample_hash (String_ (mkSemver 1 2 3 "build7")) 0)
          = Ok (mkSemver 1 2 3 "").
Proof.
  split; [reflexivity|]. intros V.
  apply (@String_then_parse_drops_metadata V
           (mkSemver 1 2 3 "build7") sample_hash 0).
  - split; apply Z.leb_le; vm_compute; reflexivity.
  - split; apply Z.leb_le; vm_compute; reflexivity.
  - split; apply Z.leb_le; vm_compute; reflexivity.
  - reflexivity.
Defined.

Lemma SemverRegex_here_NormalVersion (v : Semver) :
  0 <= Major v <= GoInt.max_int ->
  0 <= Minor v <= GoInt.max_int ->
  0 <= Patch v <= GoInt.max_int ->
  SemverRegex_here (NormalVersion v)
  = Some [NormalVersion v; formatInt (Major v); formatInt (Minor v);
          formatInt (Patch v); ""; ""].
Proof.
  intros HM Hm Hp.
  pose proof (SemverRegex_here_version _ _ _ "" "" "" _ _ _
                (formatInt_decimal _ HM) (formatInt_decimal _ Hm)
                (formatInt_decimal _ Hp) eq_refl) as Hhere.
  rewrite append_empty_r in Hhere. exact Hhere.
Qed.

(** Two versions with the same normal form have the same numbers: distinct
    versions never share a tag name. *)
Theorem NormalVersion_injective :
  forall a b : Semver,
    0 <= Major a <= GoInt.max_int -> 0 <= Minor a <= GoInt.max_int ->
    0 <= Patch a <= GoInt.max_int ->
    0 <= Major b <= GoInt.max_int -> 0 <= Minor b <= GoInt.max_int ->
    0 <= Patch b <= GoInt.max_int ->
    NormalVersion a = NormalVersion b -> triple a = triple b.
Proof.
  intros a b HMa Hma Hpa HMb Hmb Hpb Heq.
  pose proof (SemverRegex_here_NormalVersion a HMa Hma Hpa) as Ha.
  pose proof (SemverRegex_here_NormalVersion b HMb Hmb Hpb) as Hb.
  rewrite Heq, Hb in Ha. injection Ha as H1 H2 H3.
  pose proof (Atoi_decimal _ _ (formatInt_decimal _ HMa) HMa) as AMa.
  pose proof (Atoi_decimal _ _ (formatInt_decimal _ Hma) Hma) as Ama.
  pose proof (Atoi_decimal _ _ (formatInt_decimal _ Hpa) Hpa) as Apa.
  pose proof (Atoi_decimal _ _ (formatInt_decimal _ HMb) HMb) as AMb.
  pose proof (Atoi_decimal _ _ (formatInt_decimal _ Hmb) Hmb) as Amb.
  pose proof (Atoi_decimal _ _ (formatInt_decimal _ Hpb) Hpb) as Apb.
  rewrite <- H1 in AMa. rewrite <- H2 in Ama. rewrite <- H3 in Apa.
  unfold triple. congruence.
Qed.

Lemma NormalVersion_injective_witness :
  NormalVersion (mkSemver 1 20 3 "x") = NormalVersion (mkSemver 1 20 3 "")
  /\ triple (mkSemver 1 20 3 "x") = triple (mkSemver 1 20 3 "").
Proof.
  split; [reflexivity|].
  apply NormalVersion_injective;
    [split; apply Z.leb_le; vm_compute; reflexivity ..| reflexivity].
Defined.

(** ** The summary of a message (commit analyzer) *)

Lemma substring_length (n : nat) (s : string) :
  (n <= String.length s)%nat -> String.length (substring 0 n s) = n.
Proof.
  intros Hn. destruct (substring_prefix n s Hn) as [q [_ Hl]]. exact Hl.
Qed.

(** [shortMessage] panics on the empty message and on no other; it never
    reports an error; a summary is at most 60 bytes long: 60 for a message
    longer than 60 bytes, one byte less than the message otherwise. *)
Theorem shortMessage_bounds :
  forall message : string,
    (shortMessage message = Abort "slice bounds out of range [:-1]"
     <-> message = "")
    /\ (forall msg : string, shortMessage message <> Err msg)
    /\ (forall sm : string,
          shortMessage message = Ok sm ->
          (String.length sm <= 60)%nat
          /\ ((60 < String.length message)%nat ->
              String.length sm = 60%nat)
          /\ ((String.length message <= 60)%nat ->
              String.length sm = (String.length message - 1)%nat)).
Proof.
  intros message. unfold shortMessage.
  destruct (Nat.ltb_spec 60 (String.length message)) as [Hlong | Hshort].
  - split; [|split].
    + split; [discriminate|]. intros ->. simpl in Hlong. lia.
    + discriminate.
    + intros sm E. injection E as <-.
      rewrite length_append, substring_length by lia. simpl. lia.
  - destruct (Nat.eqb_spec (String.length message) 0) as [Hzero | Hpos].
    + split; [|split]; try discriminate.
      split; [intros _|reflexivity].
      destruct message; [reflexivity | discriminate].
    + split; [|split].
      * split; [discriminate|]. intros ->. contradiction Hpos. reflexivity.
      * discriminate.
      * intros sm E. injection E as <-.
        rewrite substring_length by lia. lia.
Qed.

(** ** Building the analyzer (commit analyzer) *)

(** [NewCommitAnalyzer] succeeds exactly when [ParseReleaseRules] does,
    and the analyzer holds the rule set as decoded: its rule list is not
    [nil] and each of its rules has a commit type among the eleven types and
    a severity among major, minor, patch.  A failure is the wrapped parsing
    error; the constructor never panics. *)
Theorem NewCommitAnalyzer_holds_valid_rules :
  forall decoded : option ReleaseRules,
    (forall c : CommitAnalyzer,
        NewCommitAnalyzer decoded = Ok c
        <-> ParseReleaseRules decoded = Ok (releaseRules c))
    /\ (forall c : CommitAnalyzer,
          NewCommitAnalyzer decoded = Ok c ->
          decoded = Some (releaseRules c)
          /\ exists rules : list ReleaseRule,
               Rules (releaseRules c) = Some rules
               /\ forall rule : ReleaseRule,
                    In rule rules ->
                    In (CommitType rule) commitTypes
                    /\ In (ReleaseType rule) releaseTypes)
    /\ ((forall rr : ReleaseRules, ParseReleaseRules decoded <> Ok rr) ->
        NewCommitAnalyzer decoded
        = Err "NewCommitAnalyzer: failed parsing release rules")
    /\ (forall msg : string, NewCommitAnalyzer decoded <> Abort msg).
Proof.
  intros decoded. unfold NewCommitAnalyzer, ParseReleaseRules.
  destruct decoded as [[[rules|]]|]; cbn [validate_ReleaseRules required_slice
    negb Rules slice_elems].
  - destruct (forallb validate_ReleaseRule rules) eqn:Hall;
      cbn [wrapErr bind].
    + split; [|split; [|split]].
      * intros [[r]]. split; intros E; injection E as <-; reflexivity.
      * intros c E. injection E as <-. split; [reflexivity|].
        exists rules. split; [reflexivity|].
        intros rule Hin. apply validate_ReleaseRule_spec.
        rewrite forallb_forall in Hall. apply Hall. exact Hin.
      * intros Hno. exfalso. exact (Hno _ eq_refl).
      * discriminate.
    + repeat split; try discriminate.
  - cbn [wrapErr bind]. repeat split; try discriminate.
  - cbn [wrapErr bind]. repeat split; try discriminate.
Qed.

(** ** The commit grammar, both ways (commit analyzer) *)

Lemma strip_prefix_append (p r : string) : strip_prefix p (p ++ r) = Some r.
Proof.
  induction p as [|a p IH]; [reflexivity|].
  simpl. rewrite Ascii.eqb_refl. exact IH.
Qed.

Lemma strip_prefix_sound (p : string) :
  forall s r : string, strip_prefix p s = Some r -> s = (p ++ r)%string.
Proof.
  induction p as [|a p IH]; intros s r E.
  - injection E as <-. reflexivity.
  - destruct s as [|b s]; [discriminate|]. cbn [strip_prefix] in E.
    destruct (Ascii.eqb_spec a b) as [<- | _]; [|discriminate].
    simpl. rewrite <- (IH s r E). reflexivity.
Qed.

Lemma match_alternatives_sound (alts : list string) (s a r : string) :
  match_alternatives alts s = Some (a, r) ->
  In a alts /\ s = (a ++ r)%string.
Proof.
  induction alts as [|x alts IH]; [discriminate|].
  cbn [match_alternatives].
  destruct (strip_prefix x s) as [r'|] eqn:Hx.
  - intros E. injection E as <- <-.
    split; [left; reflexivity | apply strip_prefix_sound; exact Hx].
  - intros E. destruct (IH E) as [Hin Hs]. split; [right; exact Hin | exact Hs].
Qed.

(** No commit type is a prefix of another one: a message that begins with
    a type is given that type. *)
Lemma match_alternatives_commitTypes (ty r : string) :
  In ty commitTypes ->
  match_alternatives commitTypes (ty ++ r) = Some (ty, r).
Proof.
  intros Hin. unfold commitTypes in Hin. simpl in Hin.
  repeat (destruct Hin as [<- | Hin]; [reflexivity|]).
  contradiction.
Qed.

Lemma span_until (p : ascii -> bool) (a : string) (c : ascii) (r : string) :
  all_chars p a = true -> p c = false ->
  span p (a ++ String c r) = (a, String c r).
Proof.
  intros Hall Hc. induction a as [|x a IH].
  - simpl. rewrite Hc. reflexivity.
  - simpl in *. apply andb_true_iff in Hall. destruct Hall as [Hx Hall].
    rewrite Hx, (IH Hall). reflexivity.
Qed.

Lemma match_scope_unfold (s : string) :
  match_scope s
  = match s with
    | EmptyString => Some ("", s)
    | String c r =>
        if Ascii.eqb c "(" then
          let '(sc, r') := span is_scope_char r in
          match sc, r' with
          | String _ _, String d r'' =>
              if Ascii.eqb d ")" then Some (("(" ++ sc ++ ")")%string, r'')
              else None
          | _, _ => None
          end
        else Some ("", s)
    end.
Proof.
  destruct s as [|c r]; [reflexivity|].
  destruct c as [[] [] [] [] [] [] [] []]; try reflexivity.
  cbn [match_scope Ascii.eqb Bool.eqb andb].
  destruct (span is_scope_char r) as [sc r'].
  destruct sc as [|x sc]; [reflexivity|].
  destruct r' as [|d r'']; [reflexivity|].
  destruct d as [[] [] [] [] [] [] [] []]; reflexivity.
Qed.

Lemma match_bang_unfold (s : string) :
  match_bang s
  = match s with
    | EmptyString => ("", s)
    | String c r => if Ascii.eqb c "!" then ("!", r) else ("", s)
    end.
Proof.
  destruct s as [|c r]; [reflexivity|].
  destruct c as [[] [] [] [] [] [] [] []]; reflexivity.
Qed.

Lemma match_scope_complete (scope : option string) (bang : bool) (x : string) :
  scope_ok scope = true ->
  match_scope (scope_text scope ++ bang_text bang ++ ": " ++ x)
  = Some (scope_text scope, (bang_text bang ++ ": " ++ x)%string).
Proof.
  intros Hok. destruct scope as [sc|].
  - simpl in Hok. apply andb_true_iff in Hok. destruct Hok as [Hne Hall].
    rewrite match_scope_unfold. unfold scope_text.
    rewrite !append_assoc. cbn [append Ascii.eqb Bool.eqb andb].
    rewrite (span_until is_scope_char sc ")" _ Hall eq_refl).
    destruct sc as [|c sc]; [discriminate|].
    cbn [Ascii.eqb Bool.eqb andb]. reflexivity.
  - destruct bang; reflexivity.
Qed.

Lemma match_scope_sound (s g r : string) :
  match_scope s = Some (g, r) ->
  exists scope : option string,
    scope_ok scope = true /\ g = scope_text scope /\ s = (g ++ r)%string.
Proof.
  rewrite match_scope_unfold. destruct s as [|c s0].
  - intros E. injection E as <- <-. exists None. auto.
  - destruct (Ascii.eqb_spec c "("%char) as [-> | _].
    + destruct (span is_scope_char s0) as [sc r'] eqn:Hspan.
      destruct (span_sound _ _ _ _ Hspan) as [Hall Hs].
      destruct sc as [|x sc]; [discriminate|].
      destruct r' as [|d r'']; [discriminate|].
      destruct (Ascii.eqb_spec d ")"%char) as [-> | _]; [|discriminate].
      intros E. injection E as <- <-. exists (Some (String x sc)).
      split; [|split; [reflexivity|]].
      * cbn [scope_ok String.eqb negb andb]. exact Hall.
      * rewrite Hs. simpl. rewrite append_assoc. reflexivity.
    + intros E. injection E as <- <-. exists None. auto.
Qed.

Lemma match_bang_sound (s g r : string) :
  match_bang s = (g, r) ->
  exists bang : bool, g = bang_text bang /\ s = (g ++ r)%string.
Proof.
  rewrite match_bang_unfold. destruct s as [|c s0].
  - intros E. injection E as <- <-. exists false. auto.
  - destruct (Ascii.eqb_spec c "!"%char) as [-> | _]; intros E;
      injection E as <- <-.
    + exists true. auto.
    + exists false. auto.
Qed.

(** Completeness of the grammar: a message made of one of the eleven
    types, an optional well-formed scope in parentheses, an optional
    exclamation mark, a colon, a space and a text that starts with a word
    character or a space is classified; it is given that type, scope and
    mark, and it is breaking exactly when the mark is there or the message
    contains BREAKING CHANGE. *)
Theorem conventional_message_classified :
  forall (ty : string) (scope : option string) (bang : bool) (c : ascii)
         (rest hash : string),
    In ty commitTypes ->
    scope_ok scope = true ->
    is_desc_char c = true ->
    let message :=
      (ty ++ scope_text scope ++ bang_text bang ++ ": " ++ String c rest)%string
    in
    conventionalCommitRegex_MatchString message = true
    /\ commit_type (mkCommit hash message) = ty
    /\ nth 0 (conventionalCommitRegex_FindStringSubmatch message) "" = message
    /\ nth 2 (conventionalCommitRegex_FindStringSubmatch message) ""
       = scope_text scope
    /\ nth 3 (conventionalCommitRegex_FindStringSubmatch message) ""
       = bang_text bang
    /\ breaking_commit (mkCommit hash message)
       = bang || Contains message "BREAKING CHANGE".
Proof.
  intros ty scope bang c rest hash Hty Hscope Hc message.
  assert (Hfind : exists g4 g5 : string,
             conventionalCommitRegex_FindStringSubmatch message
             = [message; ty; scope_text scope; bang_text bang; g4; g5]).
  { unfold conventionalCommitRegex_FindStringSubmatch. subst message.
    rewrite (match_alternatives_commitTypes ty _ Hty).
    rewrite (match_scope_complete scope bang _ Hscope).
    assert (Hb : match_bang (bang_text bang ++ ": " ++ String c rest)
                 = (bang_text bang, (": " ++ String c rest)%string))
      by (destruct bang; reflexivity).
    rewrite Hb. cbn [append strip_prefix Ascii.eqb Bool.eqb andb span].
    rewrite Hc. destruct (span is_desc_char rest) as [a b].
    eexists. eexists. reflexivity. }
  destruct Hfind as (g4 & g5 & Hfind).
  unfold breaking_commit, commit_type, conventionalCommitRegex_MatchString.
  cbn [Commit_Message]. rewrite Hfind. cbn [nth andb].
  repeat split. unfold breakingChange. cbn [nth]. f_equal.
  destruct bang; reflexivity.
Qed.

Lemma conventional_message_classified_witness :
  conventionalCommitRegex_MatchString "refactor(core/io)!: drop the old API"
  = true
  /\ commit_type (commit_of "refactor(core/io)!: drop the old API")
     = "refactor"
  /\ breaking_commit (commit_of "refactor(core/io)!: drop the old API") = true.
Proof.
  destruct (conventional_message_classified "refactor" (Some "core/io") true
              "d" "rop the old API" sample_hash) as (Hm & Hty & _ & _ & _ & Hb).
  - unfold commitTypes. simpl. tauto.
  - reflexivity.
  - reflexivity.
  - split; [exact Hm|]. split; [exact Hty | exact Hb].
Defined.

(** Soundness of the grammar: a classified message is one of the eleven
    types, an optional well-formed scope in parentheses, an optional
    exclamation mark, a colon, a space, a non-empty run of word characters
    and spaces, and a body; the groups are those parts, and the whole match
    is the whole message. *)
Theorem classified_message_shape :
  forall message : string,
    conventionalCommitRegex_MatchString message = true ->
    exists (ty : string) (scope : option string) (bang : bool)
           (descr body : string),
      In ty commitTypes
      /\ scope_ok scope = true
      /\ descr <> ""
      /\ all_chars is_desc_char descr = true
      /\ message
         = (ty ++ scope_text scope ++ bang_text bang ++ ": " ++ descr
            ++ body)%string
      /\ conventionalCommitRegex_FindStringSubmatch message
         = [message; ty; scope_text scope; bang_text bang; last_char descr;
            body].
Proof.
  intros message.
  unfold conventionalCommitRegex_MatchString,
    conventionalCommitRegex_FindStringSubmatch.
  destruct (match_alternatives commitTypes message) as [[ty r1]|] eqn:Hty;
    [|discriminate].
  destruct (match_scope r1) as [[g2 r2]|] eqn:Hscope; [|discriminate].
  destruct (match_bang r2) as [g3 r3] eqn:Hbang.
  destruct (strip_prefix ": " r3) as [r4|] eqn:Hcolon; [|discriminate].
  destruct (span is_desc_char r4) as [descr body] eqn:Hspan.
  destruct descr as [|d descr]; [discriminate|]. intros _.
  destruct (match_alternatives_sound _ _ _ _ Hty) as [Hin E1].
  destruct (match_scope_sound _ _ _ Hscope) as (scope & Hok & -> & E2).
  destruct (match_bang_sound _ _ _ Hbang) as (bang & -> & E3).
  pose proof (strip_prefix_sound _ _ _ Hcolon) as E4.
  destruct (span_sound _ _ _ _ Hspan) as [Hall E5].
  exists ty, scope, bang, (String d descr), body.
  split; [exact Hin|]. split; [exact Hok|]. split; [discriminate|].
  split; [exact Hall|]. split; [|reflexivity].
  rewrite E1, E2, E3, E4, E5. reflexivity.
Qed.

Lemma classified_message_shape_witness :
  exists (ty : string) (scope : option string) (bang : bool)
         (descr body : string),
    In ty commitTypes
    /\ scope_ok scope = true
    /\ descr <> ""
    /\ all_chars is_desc_char descr = true
    /\ "fix(api): handle nil, again"
       = (ty ++ scope_text scope ++ bang_text bang ++ ": " ++ descr
          ++ body)%string
    /\ conventionalCommitRegex_FindStringSubmatch "fix(api): handle nil, again"
       = ["fix(api): handle nil, again"; ty; scope_text scope; bang_text bang;
          last_char descr; body].
Proof.
  exact (classified_message_shape "fix(api): handle nil, again" eq_refl).
Defined.

(** ** The tag resolver, beyond the pairwise reduction (commit analyzer) *)

Lemma filter_Permutation {A : Type} (f : A -> bool) (l l' : list A) :
  Permutation l l' -> Permutation (filter f l) (filter f l').
Proof.
  induction 1 as [|x l l' Hp IH|x y l|l l' l'' H1 IH1 H2 IH2]; simpl.
  - constructor.
  - destruct (f x); [constructor|]; exact IH.
  - destruct (f x), (f y); try apply Permutation_refl. constructor.
  - exact (Permutation_trans IH1 IH2).
Qed.

Section ResolverMore.

Context `{Validator}.

Lemma latestLoop_member (tags : list Tag) :
  forall (i : nat) (latest : option Tag) (t : Tag),
    latestLoop i tags latest = Ok (Some t) ->
    In t tags \/ latest = Some t.
Proof.
  induction tags as [|tag rest IH]; intros i latest t E.
  - right. injection E as <-. reflexivity.
  - cbn [latestLoop] in E.
    destruct (NewSemverFromGitTag tag) as [cur| |]; try discriminate.
    cbn [wrapErr bind] in E.
    destruct (i =? 0)%nat.
    + destruct (IH _ _ _ E) as [Hin | Heq]; [left; right; exact Hin|].
      injection Heq as <-. left. left. reflexivity.
    + destruct latest as [l|]; [|discriminate].
      destruct (NewSemverFromGitTag l) as [old| |]; try discriminate.
      cbn [wrapErr bind] in E.
      destruct (Precedence cur old =? 1).
      * destruct (IH _ _ _ E) as [Hin | Heq]; [left; right; exact Hin|].
        injection Heq as <-. left. left. reflexivity.
      * destruct (IH _ _ _ E) as [Hin | Heq]; [left; right; exact Hin|].
        right. exact Heq.
Qed.

(** The loop dereferences no [nil] pointer: it ends with a tag or with the
    parsing error. *)
Lemma latestLoop_outcome (tags : list Tag) :
  forall (i : nat) (latest : option Tag),
    ((i = 0%nat /\ latest = None /\ tags <> [])
     \/ (i <> 0%nat
         /\ exists (l : Tag) (v : Semver),
              latest = Some l /\ NewSemverFromGitTag l = Ok v)) ->
    (exists t : Tag, latestLoop i tags latest = Ok (Some t))
    \/ latestLoop i tags latest = Err tag_error.
Proof.
  induction tags as [|tag rest IH]; intros i latest Hstate.
  - destruct Hstate as [(_ & _ & Hne) | (_ & l & v & -> & _)];
      [contradiction|]. left. exists l. reflexivity.
  - cbn [latestLoop].
    destruct (NewSemverFromGitTag_result tag) as [[cur Hcur] | [msg Hmsg]];
      [|rewrite Hmsg; right; reflexivity].
    rewrite Hcur. cbn [wrapErr bind].
    destruct Hstate as [(-> & -> & _) | (Hi & l & v & -> & Hl)].
    + cbn [Nat.eqb]. apply IH. right. split; [discriminate|]. eauto.
    + destruct (Nat.eqb_spec i 0) as [E|_]; [contradiction|].
      rewrite Hl. cbn [wrapErr bind].
      destruct (Precedence cur v =? 1); apply IH; right;
        (split; [discriminate|]); eauto.
Qed.

(** With at least one candidate, each of them parsed, the resolver returns
    a candidate that no candidate exceeds. *)
Lemma fetchLatestSemverTag_greatest (r : Repository) (tags : list Tag)
  (ver : Tag -> Semver) :
  TagObjects r = Ok tags ->
  filter (fun tag => SemverRegex_MatchString (Tag_Name tag)) tags <> [] ->
  (forall t : Tag,
      In t (filter (fun tag => SemverRegex_MatchString (Tag_Name tag)) tags) ->
      NewSemverFromGitTag t = Ok (ver t)) ->
  exists (tag : Tag) (lines : list string),
    fetchLatestSemverTag r = Ok (tag, lines)
    /\ In tag (filter (fun tag => SemverRegex_MatchString (Tag_Name tag)) tags)
    /\ forall x : Tag,
         In x (filter (fun tag => SemverRegex_MatchString (Tag_Name tag)) tags) ->
         Precedence (ver x) (ver tag) <> 1.
Proof.
  intros Htags Hne Hparse. unfold fetchLatestSemverTag.
  rewrite Htags. cbn [bind].
  destruct (filter (fun tag => SemverRegex_MatchString (Tag_Name tag)) tags)
    as [|t0 [|t1 rest]] eqn:Hfilter.
  - contradiction.
  - exists t0, []. split; [reflexivity|]. split; [left; reflexivity|].
    intros x [<- | []]. apply Precedence_refl.
  - cbv beta iota zeta.
    rewrite (latestLoop_first t0 (ver t0) (t1 :: rest)
               (Hparse t0 (or_introl eq_refl))).
    rewrite (latestLoop_fold ver (t1 :: rest) 0 t0 Hparse).
    cbn [bind].
    destruct (fold_keep_greater ver (t1 :: rest) t0)
      as (l1 & l2 & Hdec & Hbefore & Hafter).
    set (res := fold_left (keep_greater ver) (t1 :: rest) t0) in *.
    exists res, (latest_line res). split; [reflexivity|].
    split; [rewrite Hdec; apply in_or_app; right; left; reflexivity|].
    intros x Hx. rewrite Hdec in Hx. apply in_app_or in Hx.
    destruct Hx as [Hx | [<- | Hx]].
    + specialize (Hbefore x Hx). rewrite (Precedence_flip (ver res) (ver x)).
      rewrite Hbefore. discriminate.
    + apply Precedence_refl.
    + apply Hafter. exact Hx.
Qed.

End ResolverMore.

(** A single candidate is returned as it is, with no line logged and
    without being parsed: the resolver succeeds whether or not the
    candidate's numbers convert.  In general the tag returned is one of the
    repository's tags that pass the filter; it is a tag of the resolver's own
    making only when no tag passes, and the resolver then logs that it
    creates one. *)
Theorem fetchLatestSemverTag_returns_candidate `{Validator} :
  forall (r : Repository) (tags : list Tag),
    TagObjects r = Ok tags ->
    (forall only : Tag,
        filter (fun t => SemverRegex_MatchString (Tag_Name t)) tags = [only] ->
        fetchLatestSemverTag r = Ok (only, []))
    /\ (forall (tag : Tag) (lines : list string),
          fetchLatestSemverTag r = Ok (tag, lines) ->
          (In tag tags /\ SemverRegex_MatchString (Tag_Name tag) = true)
          \/ (filter (fun t => SemverRegex_MatchString (Tag_Name t)) tags = []
              /\ lines = ["no previous tag, creating one"])).
Proof.
  intros r tags Htags. split.
  - intros only Hfilter. unfold fetchLatestSemverTag.
    rewrite Htags. cbn [bind]. rewrite Hfilter. reflexivity.
  - intros tag lines. unfold fetchLatestSemverTag.
    rewrite Htags. cbn [bind].
    destruct (filter (fun t => SemverRegex_MatchString (Tag_Name t)) tags)
      as [|t0 [|t1 rest]] eqn:Hfilter.
    + destruct (Head r) as [head| |]; try discriminate. cbn [wrapErr bind].
      destruct (NewSemver 0 0 0 "") as [version| |]; try discriminate.
      cbn [wrapErr bind]. intros E. injection E as _ <-. right. auto.
    + intros E. injection E as <- <-. left.
      assert (Hin : In t0 (filter
                             (fun t => SemverRegex_MatchString (Tag_Name t))
                             tags)) by (rewrite Hfilter; left; reflexivity).
      apply filter_In in Hin. exact Hin.
    + cbv beta iota zeta.
      destruct (latestLoop 0 (t0 :: t1 :: rest) None) as [[latest|]| |]
        eqn:Hloop; try discriminate.
      cbn [bind]. intros E. injection E as <- <-. left.
      destruct (latestLoop_member _ _ _ _ Hloop) as [Hin | Hnone];
        [|discriminate].
      rewrite <- Hfilter in Hin. apply filter_In in Hin. exact Hin.
Qed.

Lemma fetchLatestSemverTag_returns_candidate_witness :
  filter (fun t => SemverRegex_MatchString (Tag_Name t))
    [tag_nightly; tag_too_big] = [tag_too_big]
  /\ forall V : Validator,
       @NewSemverFromGitTag V tag_too_big
       = Err "NewSemverFromGitTag: failed to convert major component"
       /\ @fetchLatestSemverTag V (repository_of [tag_nightly; tag_too_big])
          = Ok (tag_too_big, []).
Proof.
  split; [reflexivity|]. intros V. split; [vm_compute; reflexivity|].
  apply (proj1 (@fetchLatestSemverTag_returns_candidate V
                  (repository_of [tag_nightly; tag_too_big])
                  [tag_nightly; tag_too_big] eq_refl)).
  reflexivity.
Defined.

(** The version of the latest tag does not depend on the order in which
    the store lists the tags: two repositories with the same tags, listed
    in any two orders, resolve to tags of the same (major, minor, patch). *)
Theorem latest_version_order_independent `{Validator} :
  forall (r r' : Repository) (tags tags' : list Tag) (ver : Tag -> Semver),
    TagObjects r = Ok tags ->
    TagObjects r' = Ok tags' ->
    Permutation tags tags' ->
    (exists t : Tag, In t tags /\ SemverRegex_MatchString (Tag_Name t) = true) ->
    (forall t : Tag,
        In t tags -> SemverRegex_MatchString (Tag_Name t) = true ->
        NewSemverFromGitTag t = Ok (ver t)) ->
    exists (tag tag' : Tag) (lines lines' : list string),
      fetchLatestSemverTag r = Ok (tag, lines)
      /\ fetchLatestSemverTag r' = Ok (tag', lines')
      /\ In tag tags /\ In tag' tags
      /\ triple (ver tag) = triple (ver tag').
Proof.
  intros r r' tags tags' ver Htags Htags' Hperm [t [Hin Hm]] Hparse.
  set (f := fun tag : Tag => SemverRegex_MatchString (Tag_Name tag)).
  pose proof (filter_Permutation f _ _ Hperm) as Hfp.
  assert (Hne : filter f tags <> []).
  { intros E. assert (Ht : In t (filter f tags))
      by (apply filter_In; split; assumption).
    rewrite E in Ht. destruct Ht. }
  assert (Hne' : filter f tags' <> []).
  { intros E. rewrite E in Hfp. apply Permutation_sym, Permutation_nil in Hfp.
    contradiction. }
  assert (Hparse1 : forall x, In x (filter f tags) ->
                              NewSemverFromGitTag x = Ok (ver x)).
  { intros x Hx. apply filter_In in Hx. destruct Hx. apply Hparse; assumption. }
  assert (Hparse2 : forall x, In x (filter f tags') ->
                              NewSemverFromGitTag x = Ok (ver x)).
  { intros x Hx. apply Hparse1.
    apply (Permutation_in x (Permutation_sym Hfp)). exact Hx. }
  destruct (fetchLatestSemverTag_greatest r tags ver Htags Hne Hparse1)
    as (tag & lines & Hfetch & Htag & Hmax).
  destruct (fetchLatestSemverTag_greatest r' tags' ver Htags' Hne' Hparse2)
    as (tag' & lines' & Hfetch' & Htag' & Hmax').
  exists tag, tag', lines, lines'.
  split; [exact Hfetch|]. split; [exact Hfetch'|].
  assert (Htag'1 : In tag' (filter f tags))
    by (apply (Permutation_in tag' (Permutation_sym Hfp)); exact Htag').
  split; [apply filter_In in Htag; tauto|].
  split; [apply filter_In in Htag'1; tauto|].
  apply Precedence_eq.
  pose proof (Hmax tag' Htag'1) as H1.
  pose proof (Hmax' tag (Permutation_in tag Hfp Htag)) as H2.
  pose proof (Precedence_flip (ver tag') (ver tag)) as Hflip.
  destruct (Precedence_values (ver tag') (ver tag)) as [E | [E | E]]; lia.
Qed.

Lemma latest_version_order_independent_witness :
  Permutation [tag_v1_2_0; tag_release_1_2_0; tag_v1_0_0]
    [tag_release_1_2_0; tag_v1_0_0; tag_v1_2_0]
  /\ forall V : Validator,
       exists (tag tag' : Tag) (lines lines' : list string),
         @fetchLatestSemverTag V
           (repository_of [tag_v1_2_0; tag_release_1_2_0; tag_v1_0_0])
         = Ok (tag, lines)
         /\ @fetchLatestSemverTag V
              (repository_of [tag_release_1_2_0; tag_v1_0_0; tag_v1_2_0])
            = Ok (tag', lines')
         /\ In tag [tag_v1_2_0; tag_release_1_2_0; tag_v1_0_0]
         /\ In tag' [tag_v1_2_0; tag_release_1_2_0; tag_v1_0_0]
         /\ triple (example_version tag) = triple (example_version tag').
Proof.
  split; [apply Permutation_cons_append|]. intros V.
  apply (@latest_version_order_independent V
           (repository_of [tag_v1_2_0; tag_release_1_2_0; tag_v1_0_0])
           (repository_of [tag_release_1_2_0; tag_v1_0_0; tag_v1_2_0])
           [tag_v1_2_0; tag_release_1_2_0; tag_v1_0_0]
           [tag_release_1_2_0; tag_v1_0_0; tag_v1_2_0]
           example_version eq_refl eq_refl).
  - apply Permutation_cons_append.
  - exists tag_v1_2_0. split; [left; reflexivity | reflexivity].
  - intros t [<- | [<- | [<- | []]]] _; reflexivity.
Defined.

(** ** What the history loop keeps (commit analyzer) *)

Lemma extends_refl (st : Run) : extends st st.
Proof.
  unfold extends. repeat split; auto. exists []. rewrite app_nil_r. reflexivity.
Qed.

Lemma extends_trans (a b c : Run) : extends a b -> extends b c -> extends a c.
Proof.
  intros (Hm1 & Hf1 & Hv1 & l1 & Hl1) (Hm2 & Hf2 & Hv2 & l2 & Hl2).
  unfold extends. split; [congruence|]. split; [auto|]. split.
  - intros Hc. rewrite (Hv2 Hc). apply Hv1.
    destruct (newRelease b) eqn:Hb; [|reflexivity].
    rewrite (Hf2 eq_refl) in Hc. discriminate.
  - exists (l1 ++ l2). rewrite Hl2, Hl1, app_assoc. reflexivity.
Qed.

Lemma bump_of_metadata (severity : string) (v : Semver) :
  BuildMetadata (bump_of severity v) = BuildMetadata v.
Proof.
  unfold bump_of.
  destruct (String.eqb severity "patch"); [reflexivity|].
  destruct (String.eqb severity "minor"); [reflexivity|].
  destruct (String.eqb severity "major"); reflexivity.
Qed.

Lemma bump_of_unknown (severity : string) (v : Semver) :
  oneof releaseTypes severity = false -> bump_of severity v = v.
Proof.
  unfold oneof, releaseTypes, bump_of. cbn [existsb].
  rewrite !orb_false_iff. intros (HM & Hm & Hp & _).
  rewrite Hp, Hm, HM. reflexivity.
Qed.

Lemma logged_applyRule (h sm : string) (rule : ReleaseRule) (st : Run) :
  exists more : list string,
    logged (applyRule h sm rule st) = logged st ++ more.
Proof.
  unfold applyRule.
  destruct (String.eqb (ReleaseType rule) "patch");
    [eexists; cbn [logged Printf bump]; rewrite <- app_assoc; reflexivity|].
  destruct (String.eqb (ReleaseType rule) "minor");
    [eexists; cbn [logged Printf bump]; rewrite <- app_assoc; reflexivity|].
  destruct (String.eqb (ReleaseType rule) "major");
    eexists; cbn [logged Printf bump]; rewrite <- app_assoc; reflexivity.
Qed.

Lemma extends_applyRule (h sm : string) (rule : ReleaseRule) (st : Run) :
  extends st (applyRule h sm rule st).
Proof.
  unfold extends.
  rewrite semver_applyRule, newRelease_applyRule, bump_of_metadata.
  split; [reflexivity|]. split; [intros ->; reflexivity|].
  split; [|apply logged_applyRule].
  rewrite orb_false_iff. intros [_ Hone]. apply bump_of_unknown. exact Hone.
Qed.

Lemma extends_rulesLoop (ty h sm : string) (rules : list ReleaseRule) :
  forall st : Run, extends st (rulesLoop ty h sm rules st).
Proof.
  induction rules as [|rule rules IH]; intros st; cbn [rulesLoop].
  - apply extends_refl.
  - destruct (negb (String.eqb ty (CommitType rule))); [apply IH|].
    exact (extends_trans _ _ _ (extends_applyRule h sm rule st) (IH _)).
Qed.

Lemma extends_breaking (line : string) (st : Run) :
  extends st (bump BumpMajor (Printf line st)).
Proof.
  unfold extends. cbn [semver newRelease logged bump Printf].
  repeat split; auto; try discriminate. eexists. reflexivity.
Qed.

Lemma historyLoop_extends (rules : list ReleaseRule) (history : list Commit) :
  forall st st' : Run, historyLoop rules history st = Ok st' -> extends st st'.
Proof.
  induction history as [|c rest IH]; intros st st' E.
  - injection E as <-. apply extends_refl.
  - destruct (breaking_commit c) eqn:Hb.
    + rewrite historyLoop_breaking in E by exact Hb. injection E as <-.
      apply extends_breaking.
    + destruct (conventionalCommitRegex_MatchString (Commit_Message c)) eqn:Hm.
      * destruct (historyLoop_classified rules c rest st Hm Hb)
          as [sm [_ Hstep]].
        rewrite Hstep in E.
        exact (extends_trans _ _ _ (extends_rulesLoop _ _ _ rules st)
                 (IH _ _ E)).
      * rewrite historyLoop_skip in E by exact Hm. apply IH. exact E.
Qed.

Lemma historyLoop_inert (rules : list ReleaseRule) (history : list Commit) :
  forall st : Run,
    (forall x : Commit, In x history -> inert rules x = true) ->
    historyLoop rules history st = Ok st.
Proof.
  induction history as [|c rest IH]; intros st Hall; [reflexivity|].
  assert (Hc : inert rules c = true) by (apply Hall; left; reflexivity).
  assert (Hrest : forall x : Commit, In x rest -> inert rules x = true)
    by (intros x Hx; apply Hall; right; exact Hx).
  unfold inert in Hc.
  destruct (conventionalCommitRegex_MatchString (Commit_Message c)) eqn:Hm.
  - simpl in Hc. apply andb_true_iff in Hc. destruct Hc as [Hb Hn].
    apply negb_true_iff in Hb.
    destruct (historyLoop_classified rules c rest st Hm Hb) as [sm [_ ->]].
    rewrite rulesLoop_no_match by exact Hn. apply IH. exact Hrest.
  - rewrite historyLoop_skip by exact Hm. apply IH. exact Hrest.
Qed.

(** The loop can be run in two parts.  When no commit of the first part
    is breaking, the whole history gives what the second part gives from the
    state the first part ends in; when some commit of the first part is
    breaking, the second part is never looked at. *)
Theorem historyLoop_in_two_parts :
  forall (rules : list ReleaseRule) (h1 h2 : list Commit) (st : Run),
    ((forall x : Commit, In x h1 -> breaking_commit x = false) ->
     exists st1 : Run,
       historyLoop rules h1 st = Ok st1
       /\ historyLoop rules (h1 ++ h2) st = historyLoop rules h2 st1)
    /\ ((exists x : Commit, In x h1 /\ breaking_commit x = true) ->
        historyLoop rules (h1 ++ h2) st = historyLoop rules h1 st).
Proof.
  intros rules h1 h2 st. split.
  - apply historyLoop_app.
  - revert st. induction h1 as [|c h1 IH]; intros st [x [Hin Hx]].
    + destruct Hin.
    + cbn [app]. destruct (breaking_commit c) eqn:Hc.
      * rewrite !historyLoop_breaking by exact Hc. reflexivity.
      * destruct (historyLoop_not_breaking rules c (h1 ++ h2) st Hc)
          as [st1 [H1 ->]].
        destruct (historyLoop_not_breaking rules c h1 st Hc) as [st2 [H2 ->]].
        assert (st1 = st2) by congruence. subst st2.
        apply IH. destruct Hin as [<- | Hin]; [congruence|].
        exists x. split; assumption.
Qed.

Lemma historyLoop_in_two_parts_witness :
  exists st1 : Run,
    historyLoop rules_feat_fix [commit_of "fix: a"; commit_of "wip"]
      (mkRun version_1_0_0 false []) = Ok st1
    /\ historyLoop rules_feat_fix
         ([commit_of "fix: a"; commit_of "wip"] ++ [commit_of "feat: b"])
         (mkRun version_1_0_0 false [])
       = historyLoop rules_feat_fix [commit_of "feat: b"] st1.
Proof.
  apply (proj1 (historyLoop_in_two_parts rules_feat_fix
                  [commit_of "fix: a"; commit_of "wip"] [commit_of "feat: b"]
                  (mkRun version_1_0_0 false []))).
  intros x [<- | [<- | []]]; reflexivity.
Defined.

(** What the loop keeps, from any state: it always returns; the build
    metadata is unchanged, a flag that is up stays up, the version is
    unchanged when the flag comes out down, and the log only grows. *)
Theorem historyLoop_keeps :
  forall (rules : list ReleaseRule) (history : list Commit) (st : Run),
    exists st' : Run,
      historyLoop rules history st = Ok st'
      /\ BuildMetadata (semver st') = BuildMetadata (semver st)
      /\ (newRelease st = true -> newRelease st' = true)
      /\ (newRelease st' = false -> semver st' = semver st)
      /\ exists more : list string, logged st' = logged st ++ more.
Proof.
  intros rules history st.
  destruct (historyLoop_total rules history st) as [st' Hrun].
  exists st'. split; [exact Hrun|].
  exact (historyLoop_extends rules history st st' Hrun).
Qed.

(** ** The outcomes of the whole computation (commit analyzer) *)

Section Outcomes.

Context `{Validator}.

(** The resolver ends with a tag or an error; it does not panic. *)
Lemma fetchLatestSemverTag_no_abort (r : Repository) :
  (forall msg : string, TagObjects r <> Abort msg) ->
  (forall msg : string, Head r <> Abort msg) ->
  forall msg : string, fetchLatestSemverTag r <> Abort msg.
Proof.
  intros Htags Hhead msg. unfold fetchLatestSemverTag.
  destruct (TagObjects r) as [tags|e|a] eqn:E; cbn [bind];
    [|discriminate|exfalso; exact (Htags a eq_refl)].
  destruct (filter (fun tag => SemverRegex_MatchString (Tag_Name tag)) tags)
    as [|t0 [|t1 rest]].
  - destruct (Head r) as [head|e|a] eqn:Eh; cbn [wrapErr bind];
      [|discriminate|exfalso; exact (Hhead a eq_refl)].
    rewrite NewSemver_no_metadata by lia. discriminate.
  - discriminate.
  - cbv beta iota zeta.
    destruct (latestLoop_outcome (t0 :: t1 :: rest) 0 None) as [[t ->] | ->];
      [left; repeat split; discriminate | discriminate | discriminate].
Qed.

End Outcomes.

(** When the repository answers (its collaborators do not panic),
    [ComputeNewSemverNumber] ends in one of four ways: a result; the error
    of the tag resolver; the error of a latest tag that does not parse; or
    the end of the process, exactly when the log could not be read.  No
    other error is reported and nothing panics. *)
Theorem ComputeNewSemverNumber_outcomes `{Validator} :
  forall (c : CommitAnalyzer) (r : Repository),
    (forall msg : string, TagObjects r <> Abort msg) ->
    (forall msg : string, Head r <> Abort msg) ->
    (forall (since : option Z) (msg : string), Log r since <> Abort msg) ->
    (exists run : Run, ComputeNewSemverNumber c r = Ok run)
    \/ ComputeNewSemverNumber c r = Err "failed to fetch latest semver"
    \/ ComputeNewSemverNumber c r = Err "failed to build semver from git tag"
    \/ (ComputeNewSemverNumber c r = Abort "failed to fetch commit history"
        /\ exists (since : option Z) (msg : string), Log r since = Err msg).
Proof.
  intros c r Htags Hhead Hlog. unfold ComputeNewSemverNumber.
  destruct (fetchLatestSemverTag r) as [[tag lines]|e|a] eqn:Hfetch;
    cbn [wrapErr bind].
  - destruct (NewSemverFromGitTag_result tag) as [[v Hv] | [msg Hmsg]].
    + rewrite Hv. cbn [wrapErr bind].
      destruct (Log r (if negb (IsZero v) then Some (Tag_When tag) else None))
        as [commits|e|a] eqn:El.
      * left. apply historyLoop_total.
      * right. right. right. split; [reflexivity|]. eauto.
      * exfalso. exact (Hlog _ a El).
    + rewrite Hmsg. cbn [wrapErr bind]. right. right. left. reflexivity.
  - right. left. reflexivity.
  - exfalso. exact (fetchLatestSemverTag_no_abort r Htags Hhead a Hfetch).
Qed.

Lemma ComputeNewSemverNumber_outcomes_witness :
  (forall msg : string, TagObjects (repository_of [tag_too_big]) <> Abort msg)
  /\ (forall msg : string, Head (repository_of [tag_too_big]) <> Abort msg)
  /\ (forall (since : option Z) (msg : string),
        Log (repository_of [tag_too_big]) since <> Abort msg)
  /\ forall V : Validator,
       (exists run : Run,
          @ComputeNewSemverNumber V example_analyzer
            (repository_of [tag_too_big]) = Ok run)
       \/ @ComputeNewSemverNumber V example_analyzer
            (repository_of [tag_too_big])
          = Err "failed to fetch latest semver"
       \/ @ComputeNewSemverNumber V example_analyzer
            (repository_of [tag_too_big])
          = Err "failed to build semver from git tag"
       \/ (@ComputeNewSemverNumber V example_analyzer
             (repository_of [tag_too_big])
           = Abort "failed to fetch commit history"
           /\ exists (since : option Z) (msg : string),
                Log (repository_of [tag_too_big]) since = Err msg).
Proof.
  split; [discriminate|]. split; [discriminate|]. split; [discriminate|].
  intros V.
  apply (@ComputeNewSemverNumber_outcomes V example_analyzer
           (repository_of [tag_too_big]));
    intros; discriminate.
Defined.

(** The result depends on the log through one query only.  When the
    latest tag's version is 0.0.0, also for a real tag with a timestamp, it
    is the query for the whole log; otherwise it is the query since the
    tag's time.  Two repositories with the same tags and head that agree on
    that query get the same answer, whatever they answer to other
    queries. *)
Theorem ComputeNewSemverNumber_log_window `{Validator} :
  forall (c : CommitAnalyzer) (r r' : Repository) (tag : Tag)
         (lines : list string) (version : Semver),
    TagObjects r' = TagObjects r ->
    Head r' = Head r ->
    fetchLatestSemverTag r = Ok (tag, lines) ->
    NewSemverFromGitTag tag = Ok version ->
    Log r' (if IsZero version then None else Some (Tag_When tag))
    = Log r (if IsZero version then None else Some (Tag_When tag)) ->
    ComputeNewSemverNumber c r' = ComputeNewSemverNumber c r.
Proof.
  intros c r r' tag lines version Htags Hhead Hfetch Hparse Hlog.
  assert (Hfetch' : fetchLatestSemverTag r' = Ok (tag, lines)).
  { rewrite <- Hfetch. unfold fetchLatestSemverTag.
    rewrite Htags, Hhead. reflexivity. }
  assert (Hsince : (if negb (IsZero version) then Some (Tag_When tag) else None)
                   = (if IsZero version then None else Some (Tag_When tag)))
    by (destruct (IsZero version); reflexivity).
  unfold ComputeNewSemverNumber. rewrite Hfetch, Hfetch'. cbn [wrapErr bind].
  rewrite Hparse. cbn [wrapErr bind]. rewrite Hsince, Hlog. reflexivity.
Qed.

Lemma ComputeNewSemverNumber_log_window_witness :
  (Log (zero_tag_repository (Err "no log")) (Some 100) = Err "no log"
   /\ Log (zero_tag_repository (Ok [commit_of "feat!: other"])) (Some 100)
      = Ok [commit_of "feat!: other"]
   /\ forall V : Validator,
        @ComputeNewSemverNumber V example_analyzer
          (zero_tag_repository (Ok [commit_of "feat!: other"]))
        = @ComputeNewSemverNumber V example_analyzer
            (zero_tag_repository (Err "no log"))
        /\ exists more : list string,
             @ComputeNewSemverNumber V example_analyzer
               (zero_tag_repository (Err "no log"))
             = Ok (mkRun (mkSemver 0 1 0 "") true more))
  /\ (Log (tagged_repository (Err "no log")) None = Err "no log"
      /\ Log (tagged_repository (Ok [commit_of "feat!: old"])) None
         = Ok [commit_of "feat!: old"]
      /\ forall V : Validator,
           @ComputeNewSemverNumber V example_analyzer
             (tagged_repository (Ok [commit_of "feat!: old"]))
           = @ComputeNewSemverNumber V example_analyzer
               (tagged_repository (Err "no log"))
           /\ exists more : list string,
                @ComputeNewSemverNumber V example_analyzer
                  (tagged_repository (Err "no log"))
                = Ok (mkRun (mkSemver 1 2 1 "") true more)).
Proof.
  split.
  - split; [reflexivity|]. split; [reflexivity|]. intros V. split.
    + exact (@ComputeNewSemverNumber_log_window V example_analyzer
               (zero_tag_repository (Err "no log"))
               (zero_tag_repository (Ok [commit_of "feat!: other"]))
               tag_v0_0_0 [] (mkSemver 0 0 0 "")
               eq_refl eq_refl eq_refl eq_refl eq_refl).
    + eexists. vm_compute. reflexivity.
  - split; [reflexivity|]. split; [reflexivity|]. intros V. split.
    + exact (@ComputeNewSemverNumber_log_window V example_analyzer
               (tagged_repository (Err "no log"))
               (tagged_repository (Ok [commit_of "feat!: old"]))
               tag_v1_2_0 [] (mkSemver 1 2 0 "")
               eq_refl eq_refl eq_refl eq_refl eq_refl).
    + eexists. vm_compute. reflexivity.
Defined.

(** Commits that are not of the grammar, or whose type has no rule, leave
    the version alone: when every commit of the log is inert the computation
    returns the latest tag's version with the flag false, and logs nothing
    more.  In particular a repository without new commit gives the same
    answer each time. *)
Theorem ComputeNewSemverNumber_inert_log `{Validator} :
  forall (c : CommitAnalyzer) (r : Repository) (tag : Tag)
         (lines : list string) (version : Semver) (commits : list Commit),
    fetchLatestSemverTag r = Ok (tag, lines) ->
    NewSemverFromGitTag tag = Ok version ->
    Log r (if IsZero version then None else Some (Tag_When tag)) = Ok commits ->
    (forall x : Commit,
        In x commits ->
        inert (slice_elems (Rules (releaseRules c))) x = true) ->
    ComputeNewSemverNumber c r = Ok (mkRun version false lines).
Proof.
  intros c r tag lines version commits Hfetch Hparse Hlog Hinert.
  unfold ComputeNewSemverNumber. rewrite Hfetch. cbn [wrapErr bind].
  rewrite Hparse. cbn [wrapErr bind].
  assert (Hsince : (if negb (IsZero version) then Some (Tag_When tag) else None)
                   = (if IsZero version then None else Some (Tag_When tag)))
    by (destruct (IsZero version); reflexivity).
  rewrite Hsince, Hlog. apply historyLoop_inert.
  intros x Hx. apply Hinert. apply in_rev. exact Hx.
Qed.

Lemma ComputeNewSemverNumber_inert_log_witness :
  (forall x : Commit,
      In x [commit_of "Merge branch main"; commit_of "docs: readme"] ->
      inert (slice_elems (Rules (releaseRules example_analyzer))) x = true)
  /\ forall V : Validator,
       @ComputeNewSemverNumber V example_analyzer
         (mkRepository (Ok [tag_v1_2_0]) (Ok sample_hash)
            (fun _ => Ok [commit_of "Merge branch main";
                          commit_of "docs: readme"]))
       = Ok (mkRun (mkSemver 1 2 0 "") false []).
Proof.
  assert (Hinert : forall x : Commit,
             In x [commit_of "Merge branch main"; commit_of "docs: readme"] ->
             inert (slice_elems (Rules (releaseRules example_analyzer))) x
             = true)
    by (intros x [<- | [<- | []]]; reflexivity).
  split; [exact Hinert|]. intros V.
  exact (@ComputeNewSemverNumber_inert_log V example_analyzer
           (mkRepository (Ok [tag_v1_2_0]) (Ok sample_hash)
              (fun _ => Ok [commit_of "Merge branch main";
                            commit_of "docs: readme"]))
           tag_v1_2_0 [] (mkSemver 1 2 0 "")
           [commit_of "Merge branch main"; commit_of "docs: readme"]
           eq_refl eq_refl eq_refl Hinert).
Defined.
